(** * MEL versioning and merge logic of the crisis-exercise editor

    A shallow embedding of [src/app/api/chat/route.backup.ts] (the chat
    endpoint: event aggregation, document builder, merge engine, session
    handlers) and of [src/app/api/sessions/route.ts] (the sessions endpoint),
    followed by the properties the specification states about them.

    Conventions of the embedding.
    - An optional property of a JavaScript object ([id?: string]) is an
      [option]; [None] stands for a missing key and for [undefined] alike.
    - [randomUUID()] and [new Date()] are the two effects of the code.  They
      are threaded through a state monad [M]: the state counts the UUIDs drawn
      and the clock readings taken so far, and a [Platform] says which string
      the n-th draw and the n-th reading return.
    - A JavaScript [Map] is an association list in insertion order, since
      [Map.prototype.values] and [keys] iterate in that order.
    - [version] is a JavaScript number holding an integer.  It is an integer
      of [Z], and [version + 1] is the double addition: the exact sum rounded
      to 53 bits ([jsAdd]), which is the exact sum up to 2^53 and no further. *)

From Stdlib Require Import String List ZArith Bool Arith Lia Permutation.
From Stdlib Require Import DecimalString.
Import ListNotations.
Local Open Scope string_scope.

(* ================================================================== *)
(** ** Effects: UUID source and wall clock *)

Class Platform := {
  uuid_of : nat -> string;   (* result of the n-th call of randomUUID() *)
  iso_of  : nat -> string;   (* new Date().toISOString() at the n-th clock reading *)
  ms_of   : nat -> string    (* Date.now(), printed, at the n-th clock reading *)
}.

Record Env := mkEnv { uuidsDrawn : nat; clockReads : nat }.

Definition M (A : Type) : Type := Env -> A * Env.

Definition ret {A} (a : A) : M A := fun e => (a, e).

Definition bind {A B} (m : M A) (k : A -> M B) : M B :=
  fun e => let (a, e') := m e in k a e'.

Notation "x <- c ;; k" := (bind c (fun x => k))
  (at level 61, c at next level, right associativity).

Definition randomUUID `{Platform} : M string :=
  fun e => (uuid_of (uuidsDrawn e), mkEnv (S (uuidsDrawn e)) (clockReads e)).

(** [new Date().toISOString()] *)
Definition newDateISO `{Platform} : M string :=
  fun e => (iso_of (clockReads e), mkEnv (uuidsDrawn e) (S (clockReads e))).

(** [Date.now()] inside a template string *)
Definition dateNow `{Platform} : M string :=
  fun e => (ms_of (clockReads e), mkEnv (uuidsDrawn e) (S (clockReads e))).

(** [injects.forEach(...)] over a loop-carried state. *)
Fixpoint forEach {S A} (l : list A) (f : S -> A -> M S) (s : S) : M S :=
  match l with
  | [] => ret s
  | x :: r => s' <- f s x ;; forEach r f s'
  end.

(** [injects.map((inject, index) => ...)] with an effectful callback. *)
Fixpoint mapFrom {A B} (f : A -> nat -> M B) (l : list A) (index : nat) : M (list B) :=
  match l with
  | [] => ret []
  | x :: r => y <- f x index ;; ys <- mapFrom f r (S index) ;; ret (y :: ys)
  end.

(* ================================================================== *)
(** ** JavaScript values used by the code *)

(** The integer-valued double nearest to an integer, ties to the even
    mantissa: below 2^53 every integer is its own double; from there on the
    bits beyond the 53rd are rounded away. *)
Definition roundToDouble (z : Z) : Z :=
  let a := Z.abs z in
  if (a <? 2 ^ 53)%Z then z
  else
    let k := (Z.log2 a - 52)%Z in
    let q := (a / 2 ^ k)%Z in
    let r := (a mod 2 ^ k)%Z in
    let half := (2 ^ (k - 1))%Z in
    let q' := if (r <? half)%Z then q
              else if (half <? r)%Z then (q + 1)%Z
              else if Z.even q then q else (q + 1)%Z in
    (Z.sgn z * (q' * 2 ^ k))%Z.

(** [a + b] on numbers that hold integers. *)
Definition jsAdd (a b : Z) : Z := roundToDouble (a + b).

Arguments jsAdd : simpl never.

(** [Number.isSafeInteger]: at most [Number.MAX_SAFE_INTEGER] = 2^53 - 1 in
    absolute value. *)
Definition isSafeInteger (z : Z) : bool := (Z.abs z <=? 2 ^ 53 - 1)%Z.

(** Strict equality [===] on optional strings: [undefined === undefined]. *)
Definition opt_eqb {A} (eqb : A -> A -> bool) (a b : option A) : bool :=
  match a, b with
  | Some x, Some y => eqb x y
  | None, None => true
  | _, _ => false
  end.

Definition str_opt_eqb : option string -> option string -> bool := opt_eqb String.eqb.

(** [Number?: string | number]: [3 === "3"] is false.  Sequence numbers
    that are numbers are the integers the JSON carries. *)
Inductive SeqNum : Type :=
| NumOfNumber (z : Z)
| NumOfString (s : string).

Definition SeqNum_eqb (a b : SeqNum) : bool :=
  match a, b with
  | NumOfNumber x, NumOfNumber y => Z.eqb x y
  | NumOfString x, NumOfString y => String.eqb x y
  | _, _ => false
  end.

(** Truthiness of an optional string: [undefined] and [""] are falsy. *)
Definition truthy (o : option string) : bool :=
  match o with
  | Some s => negb (s =? "")
  | None => false
  end.

(** [x || randomUUID()] *)
Definition orRandomUUID `{Platform} (o : option string) : M string :=
  match o with
  | Some s => if s =? "" then randomUUID else ret s
  | None => randomUUID
  end.

(** [s || new Date().toISOString()] *)
Definition orElseNow `{Platform} (s : string) : M string :=
  if s =? "" then newDateISO else ret s.

(* ================================================================== *)
(** ** JavaScript [Map] in insertion order *)

Section JsMap.
Context {K V : Type} (keq : K -> K -> bool).

Definition JsMap : Type := list (K * V).

Fixpoint Map_get (m : JsMap) (k : K) : option V :=
  match m with
  | [] => None
  | (k', v) :: r => if keq k' k then Some v else Map_get r k
  end.

Definition Map_has (m : JsMap) (k : K) : bool :=
  match Map_get m k with Some _ => true | None => false end.

(** [set] on a key already present keeps its position. *)
Fixpoint Map_set (m : JsMap) (k : K) (v : V) : JsMap :=
  match m with
  | [] => [(k, v)]
  | (k', v') :: r => if keq k' k then (k, v) :: r else (k', v') :: Map_set r k v
  end.

Fixpoint Map_delete (m : JsMap) (k : K) : JsMap :=
  match m with
  | [] => []
  | (k', v') :: r => if keq k' k then r else (k', v') :: Map_delete r k
  end.

Definition Map_keys (m : JsMap) : list K := map fst m.
Definition Map_values (m : JsMap) : list V := map snd m.
End JsMap.

Arguments JsMap : clear implicits.

(* ================================================================== *)
(** ** Data model ([interface Inject], [Event], [MelData]) *)

Record Inject := mkInject {
  inj_id : option string;
  inj_melId : option string;
  inj_Number : option SeqNum;
  inj_Serial : option string;
  inj_Time : option string;
  inj_From : option string;
  inj_Faction : option string;
  inj_To : option string;
  inj_Team : option string;
  inj_Method : option string;
  inj_On : option string;
  inj_Subject : option string;
  inj_Message : option string;
  inj_originalIndex : option nat;
  inj_lastModified : option string;
  inj_extra : list (string * string)   (* [key: string]: unknown *)
}.

(** [{...inject, id: v}] and its like. *)
Definition with_id (v : option string) (i : Inject) : Inject :=
  mkInject v (inj_melId i) (inj_Number i) (inj_Serial i) (inj_Time i)
    (inj_From i) (inj_Faction i) (inj_To i) (inj_Team i) (inj_Method i)
    (inj_On i) (inj_Subject i) (inj_Message i) (inj_originalIndex i)
    (inj_lastModified i) (inj_extra i).

Definition with_melId (v : option string) (i : Inject) : Inject :=
  mkInject (inj_id i) v (inj_Number i) (inj_Serial i) (inj_Time i)
    (inj_From i) (inj_Faction i) (inj_To i) (inj_Team i) (inj_Method i)
    (inj_On i) (inj_Subject i) (inj_Message i) (inj_originalIndex i)
    (inj_lastModified i) (inj_extra i).

Definition with_originalIndex (v : option nat) (i : Inject) : Inject :=
  mkInject (inj_id i) (inj_melId i) (inj_Number i) (inj_Serial i) (inj_Time i)
    (inj_From i) (inj_Faction i) (inj_To i) (inj_Team i) (inj_Method i)
    (inj_On i) (inj_Subject i) (inj_Message i) v
    (inj_lastModified i) (inj_extra i).

Definition with_lastModified (v : option string) (i : Inject) : Inject :=
  mkInject (inj_id i) (inj_melId i) (inj_Number i) (inj_Serial i) (inj_Time i)
    (inj_From i) (inj_Faction i) (inj_To i) (inj_Team i) (inj_Method i)
    (inj_On i) (inj_Subject i) (inj_Message i) (inj_originalIndex i)
    v (inj_extra i).

Record Event := mkEvent {
  ev_id : string;
  ev_name : option string;     (* inject.Serial, possibly undefined *)
  ev_injectCount : nat
}.

Record MelData := mkMel {
  melId : string;
  version : Z;
  timestamp : string;
  injects : list Inject;
  totalInjects : nat;
  events : list Event
}.

(* ================================================================== *)
(** ** Event aggregator: [extractEventsFromInjects] *)

Definition EventMap : Type := JsMap (option string) Event.

(** One turn of the [forEach] callback. *)
Definition countInject `{Platform} (eventMap : EventMap) (inject : Inject) : M EventMap :=
  let eventName := inj_Serial inject in
  eventMap1 <-
    (if negb (Map_has str_opt_eqb eventMap eventName)
     then uuid <- randomUUID ;;
          ret (Map_set str_opt_eqb eventMap eventName (mkEvent uuid eventName 0))
     else ret eventMap) ;;
  (* eventMap.get(eventName).injectCount++ : the stored object is mutated *)
  ret (match Map_get str_opt_eqb eventMap1 eventName with
       | Some ev =>
           Map_set str_opt_eqb eventMap1 eventName
             (mkEvent (ev_id ev) (ev_name ev) (S (ev_injectCount ev)))
       | None => eventMap1
       end).

Definition extractEventsFromInjects `{Platform} (injects : list Inject) : M (list Event) :=
  eventMap <- forEach injects countInject [] ;;
  ret (Map_values eventMap).

(* ================================================================== *)
(** ** Document builder: [createMelVersion] *)

(** The callback of [injects.map]: mint an identifier where there is none,
    stamp owner, position and time. *)
Definition stampNew `{Platform} (currentMelId timestamp : string)
    (inject : Inject) (index : nat) : M Inject :=
  newId <- orRandomUUID (inj_id inject) ;;
  ret (with_lastModified (Some timestamp)
         (with_originalIndex (Some index)
            (with_melId (Some currentMelId) (with_id (Some newId) inject)))).

Definition createMelVersion `{Platform} (injects : list Inject) (melId : option string)
  : M MelData :=
  currentMelId <- orRandomUUID melId ;;
  timestamp <- newDateISO ;;
  injectsWithIds <- mapFrom (stampNew currentMelId timestamp) injects 0 ;;
  evs <- extractEventsFromInjects injectsWithIds ;;
  ret (mkMel currentMelId 1 timestamp injectsWithIds (length injectsWithIds) evs).

(* ================================================================== *)
(** ** Full replacement and user edits: [updateMelVersion] *)

Definition updateMelVersion `{Platform} (currentMel : MelData) (updatedInjects : list Inject)
  : M MelData :=
  timestamp <- newDateISO ;;
  evs <- extractEventsFromInjects updatedInjects ;;
  ret (mkMel (melId currentMel)
             (jsAdd (version currentMel) 1)
             timestamp
             (map (with_lastModified (Some timestamp)) updatedInjects)
             (length updatedInjects)
             evs).

(* ================================================================== *)
(** ** Merge engine: [mergeMelUpdates] *)

(** [Array.prototype.findIndex]; [None] is the source's [-1]. *)
Fixpoint findIndex {A} (p : A -> bool) (l : list A) : option nat :=
  match l with
  | [] => None
  | x :: r => if p x then Some 0 else option_map S (findIndex p r)
  end.

(** [arr[i] = v] for an index inside the array. *)
Fixpoint assignAt {A} (i : nat) (v : A) (l : list A) {struct l} : list A :=
  match l, i with
  | [], _ => []
  | _ :: r, 0 => v :: r
  | x :: r, S j => x :: assignAt j v r
  end.

(** [existing.id === updatedInject.id || existing.Number === updatedInject.Number] *)
Definition sameInject (updatedInject existing : Inject) : bool :=
  str_opt_eqb (inj_id existing) (inj_id updatedInject)
  || opt_eqb SeqNum_eqb (inj_Number existing) (inj_Number updatedInject).

(** One turn of [updatedInjects.forEach] in the partial-update branch. *)
Definition mergeInject `{Platform} (currentMel : MelData)
    (mergedInjects : list Inject) (updatedInject : Inject) : M (list Inject) :=
  match findIndex (sameInject updatedInject) mergedInjects with
  | Some existingIndex =>
      lastModified <- newDateISO ;;
      let preservedId :=
        match nth_error mergedInjects existingIndex with
        | Some existing => inj_id existing
        | None => None
        end in
      ret (assignAt existingIndex
             (with_lastModified (Some lastModified)
                (with_melId (Some (melId currentMel))
                   (with_id preservedId updatedInject)))
             mergedInjects)
  | None =>
      newId <- orRandomUUID (inj_id updatedInject) ;;
      lastModified <- newDateISO ;;
      ret (mergedInjects ++
             [with_lastModified (Some lastModified)
                (with_melId (Some (melId currentMel))
                   (with_id (Some newId) updatedInject))])%list
  end.

(** [mergeMelUpdates].  The guard [!currentMel.injects] of the source is
    vacuous for a [MelData], whose [injects] is an array (an empty array is
    truthy); the lookup map [existingInjectsMap] the source fills first is
    never read and is left out. *)
Definition mergeMelUpdates `{Platform} (currentMel : option MelData)
    (updatedInjects : list Inject) : M MelData :=
  match currentMel with
  | None => createMelVersion updatedInjects None
  | Some currentMel =>
      let isPartialUpdate :=
        (length updatedInjects <? length (injects currentMel))%nat in
      if isPartialUpdate then
        mergedInjects <- forEach updatedInjects (mergeInject currentMel)
                                 (injects currentMel) ;;
        updateMelVersion currentMel mergedInjects
      else
        updateMelVersion currentMel updatedInjects
  end.

(** The dispatch of [POST] on the processed model output (lines 406-419):
    [action] is the mode, and anything but ["merge"] replaces. *)
Definition applyInjects `{Platform} (existingMel : option MelData)
    (extractedJson : list Inject) (action : string) : M MelData :=
  match existingMel with
  | Some mel =>
      if (0 <? length (injects mel))%nat then
        if action =? "merge"
        then mergeMelUpdates (Some mel) extractedJson
        else updateMelVersion mel extractedJson
      else createMelVersion extractedJson None
  | None => createMelVersion extractedJson None
  end.

(* ================================================================== *)
(** ** Session stores and HTTP handlers *)

Record Message := mkMessage {
  msg_role : string;
  msg_content : string;
  msg_id : option string
}.

(** An entry of [melHistory]: [MelData & { createdAt, source }]. *)
Record HistoryEntry := mkHistory {
  h_mel : MelData;
  h_createdAt : string;
  h_source : string
}.

(** [interface Session] of the chat endpoint. *)
Record Session := mkSession {
  messages : list Message;
  lastActivity : string;
  createdAt : string;
  currentMel : option MelData;
  melHistory : option (list HistoryEntry)
}.

(** [interface SessionData] of the sessions endpoint; [exercise] is opaque. *)
Record SessionData := mkSessionData {
  sd_id : string;
  sd_exercise : option string;
  sd_messages : option (list Message);
  sd_lastActivity : string;
  sd_createdAt : string
}.

(** The two module-level constants named [sessions]: one per route module. *)
Record World := mkWorld {
  chatSessions : JsMap string Session;         (* chat/route.backup.ts, line 48 *)
  savedSessions : JsMap string SessionData     (* sessions/route.ts, line 12 *)
}.

Inductive Body : Type :=
| ErrorBody (error : string)
| ChatReply (content sessionId : string) (messageCount : nat)
            (melData : option MelData) (hasJson : bool) (action : string)
| SessionIds (ids : list string)
| SessionBody (session : Session)
| EditOk (melData : MelData) (message : string)
| SavedList (entries : list (string * string * nat))
| SavedBody (session : SessionData)
| SaveOk (session : SessionData)
| DeleteOk.

Record Response := mkResponse { status : nat; body : Body }.

Definition string_of_nat (n : nat) : string := NilZero.string_of_uint (Nat.to_uint n).
(** A number that holds an integer, as a template string prints it: in
    decimal digits (so for every integer below 10^21). *)
Definition string_of_Z (z : Z) : string := NilZero.string_of_int (Z.to_int z).

(** [!sessionId] for a value that is a string, [null] or [undefined]. *)
Definition falsy (o : option string) : bool := negb (truthy o).

Definition setChat (w : World) (m : JsMap string Session) : World :=
  mkWorld m (savedSessions w).
Definition setSaved (w : World) (m : JsMap string SessionData) : World :=
  mkWorld (chatSessions w) m.

(** [session.melHistory.push(entry)] after the [if (!session.melHistory)] reset. *)
Definition pushHistory (h : option (list HistoryEntry)) (entry : HistoryEntry)
  : option (list HistoryEntry) :=
  Some (match h with Some l => l | None => [] end ++ [entry])%list.

Module Chat.

(** Body of a [PUT] request after [request.json()]; [put_injects] is [None]
    when the field is missing or is not an array. *)
Record PutRequest := mkPut {
  put_sessionId : option string;
  put_melId : option string;
  put_injects : option (list Inject);
  put_action : option string
}.

(** [PUT]: a document edit made in the table.  [None] is a request whose
    body does not parse, which the [catch] turns into a 500. *)
Definition PUT `{Platform} (request : option PutRequest) (w : World)
  : M (Response * World) :=
  match request with
  | None => ret (mkResponse 500 (ErrorBody "Failed to update MEL"), w)
  | Some req =>
    match put_sessionId req with
    | None => ret (mkResponse 400 (ErrorBody "Session ID is required"), w)
    | Some sessionId =>
      if sessionId =? "" then
        ret (mkResponse 400 (ErrorBody "Session ID is required"), w)
      else
      match Map_get String.eqb (chatSessions w) sessionId with
      | None => ret (mkResponse 404 (ErrorBody "Session not found"), w)
      | Some session =>
        match put_action req, put_injects req with
        | Some action, Some injects =>
          if action =? "updateInjects" then
            match currentMel session with
            | None =>
                ret (mkResponse 404 (ErrorBody "MEL not found or ID mismatch"), w)
            | Some currentMel =>
              if negb (str_opt_eqb (Some (melId currentMel)) (put_melId req)) then
                ret (mkResponse 404 (ErrorBody "MEL not found or ID mismatch"), w)
              else
                updatedMel <- updateMelVersion currentMel injects ;;
                created <- newDateISO ;;
                let session' :=
                  mkSession (messages session) (lastActivity session)
                    (createdAt session) (Some updatedMel)
                    (pushHistory (melHistory session)
                       (mkHistory updatedMel created "user_edit")) in
                ret (mkResponse 200
                       (EditOk updatedMel
                          ("MEL updated to version "
                             ++ string_of_Z (version updatedMel))),
                     setChat w (Map_set String.eqb (chatSessions w) sessionId session'))
            end
          else ret (mkResponse 400 (ErrorBody "Invalid action or missing data"), w)
        | _, _ => ret (mkResponse 400 (ErrorBody "Invalid action or missing data"), w)
        end
      end
    end
  end.

(** [GET]: the list of session identifiers, or one session. *)
Definition GET (sessionId : option string) (w : World) : Response :=
  if falsy sessionId then
    mkResponse 200 (SessionIds (Map_keys (chatSessions w)))
  else
    match sessionId with
    | Some sid =>
      match Map_get String.eqb (chatSessions w) sid with
      | None => mkResponse 404 (ErrorBody "Session not found")
      | Some session => mkResponse 200 (SessionBody session)
      end
    | None => mkResponse 200 (SessionIds (Map_keys (chatSessions w)))
    end.

Record PostRequest := mkPost {
  post_messages : list Message;
  post_apiKey : option string;
  post_systemPrompt : option string;
  post_sessionId : option string;
  post_currentMelData : option MelData
}.

(** What [extractedJson] can be after [processResponsesApiOutput]. *)
Inductive Extracted : Type :=
| NoJson                              (* null *)
| NotAnArray (isTruthy : bool)        (* parsed JSON that is not an array, e.g. 0 *)
| InjectArray (l : list Inject).

(** [!!extractedJson]: an array is truthy, [null] is not, and any other
    value goes by its own truthiness. *)
Definition hasJsonOf (x : Extracted) : bool :=
  match x with
  | NoJson => false
  | NotAnArray isTruthy => isTruthy
  | InjectArray _ => true
  end.

(** Result of [processResponsesApiOutput(responseData)]. *)
Record Processed := mkProcessed {
  proc_content : string;
  proc_extractedJson : Extracted;
  proc_action : string
}.

(** The external chat-completion call, as seen by the handler. *)
Inductive Upstream : Type :=
| UpstreamThrows                                   (* fetch or json() rejects *)
| UpstreamNotOk (httpStatus : nat) (errorData : string)
| UpstreamOk (out : Processed).

(** [POST]: one chat turn.  The session object is shared with the map, so
    every assignment to it is visible in the store at once, also when the
    handler leaves early.  The outbound request (system prompt, cleaned
    messages, [buildMelContext]) goes to the external service and does not
    come back into the handler's state; what comes back is [upstream].  The
    reply's constant [apiType] and the passed-through [toolCalls] are left
    out of [ChatReply]. *)
Definition POST `{Platform} (request : option PostRequest) (envKey : option string)
    (upstream : Upstream) (w : World) : M (Response * World) :=
  match request with
  | None => ret (mkResponse 500 (ErrorBody "Internal server error"), w)
  | Some req =>
    if falsy (post_apiKey req) && falsy envKey then
      ret (mkResponse 400 (ErrorBody "API key is required"), w)
    else
      currentSessionId <-
        (if truthy (post_sessionId req)
         then ret (match post_sessionId req with Some s => s | None => "" end)
         else ms <- dateNow ;; ret ("session_" ++ ms)) ;;
      session0 <-
        (match Map_get String.eqb (chatSessions w) currentSessionId with
         | Some s => ret s
         | None =>
             la <- newDateISO ;;
             ca <- newDateISO ;;
             ret (mkSession [] la ca None None)
         end) ;;
      let session1 :=
        match post_currentMelData req with
        | Some mel => mkSession (messages session0) (lastActivity session0)
                        (createdAt session0) (Some mel) (melHistory session0)
        | None => session0
        end in
      let w1 := setChat w (Map_set String.eqb (chatSessions w) currentSessionId session1) in
      let existingMel :=
        match post_currentMelData req with
        | Some mel => Some mel
        | None => currentMel session1
        end in
      match upstream with
      | UpstreamThrows => ret (mkResponse 500 (ErrorBody "Internal server error"), w1)
      | UpstreamNotOk httpStatus errorData =>
          ret (mkResponse httpStatus
                 (ErrorBody ("OpenAI Responses API Error: "
                               ++ string_of_nat httpStatus ++ " - " ++ errorData)),
               w1)
      | UpstreamOk out =>
          let finalContent :=
            if proc_content out =? ""
            then "Exercise data has been processed using Responses API."
            else proc_content out in
          r <-
            (match proc_extractedJson out with
             | InjectArray extractedJson =>
                 mel <- applyInjects existingMel extractedJson (proc_action out) ;;
                 created <- newDateISO ;;
                 ret (Some mel,
                      mkSession (messages session1) (lastActivity session1)
                        (createdAt session1) (Some mel)
                        (pushHistory (melHistory session1)
                           (mkHistory mel created
                              (if proc_action out =? "merge"
                               then "partial_update_responses"
                               else "full_creation_responses"))))
             | _ => ret (None, session1)
             end) ;;
          let '(melData, session2) := r in
          let updatedMessages :=
            (post_messages req ++ [mkMessage "assistant" finalContent None])%list in
          la <- newDateISO ;;
          let session3 :=
            mkSession updatedMessages la (createdAt session2)
                      (currentMel session2) (melHistory session2) in
          ret (mkResponse 200
                 (ChatReply finalContent currentSessionId (length updatedMessages)
                    melData
                    (hasJsonOf (proc_extractedJson out))
                    (proc_action out)),
               setChat w1 (Map_set String.eqb (chatSessions w1) currentSessionId session3))
      end
  end.

End Chat.

Module Sessions.

(** [GET]: every saved session in brief, or one saved session. *)
Definition GET `{Platform} (sessionId : option string) (w : World) : M Response :=
  match (if truthy sessionId then sessionId else None) with
  | None =>
      sessionList <-
        mapFrom (fun id (_ : nat) =>
                   let s := Map_get String.eqb (savedSessions w) id in
                   la <- (match s with
                          | Some d => orElseNow (sd_lastActivity d)
                          | None => newDateISO
                          end) ;;
                   ret (id, la,
                        match s with
                        | Some d => match sd_messages d with
                                    | Some l => length l
                                    | None => 0
                                    end
                        | None => 0
                        end))
                (Map_keys (savedSessions w)) 0 ;;
      ret (mkResponse 200 (SavedList sessionList))
  | Some sid =>
      match Map_get String.eqb (savedSessions w) sid with
      | None => ret (mkResponse 404 (ErrorBody "Session not found"))
      | Some session => ret (mkResponse 200 (SavedBody session))
      end
  end.

Record PostRequest := mkPost {
  post_sessionId : option string;
  post_exercise : option string;
  post_messages : option (list Message)
}.

(** [POST]: save or overwrite a session. *)
Definition POST `{Platform} (request : option PostRequest) (w : World)
  : M (Response * World) :=
  match request with
  | None => ret (mkResponse 500 (ErrorBody "Failed to save session"), w)
  | Some req =>
    match (if truthy (post_sessionId req) then post_sessionId req else None) with
    | None => ret (mkResponse 400 (ErrorBody "Session ID required"), w)
    | Some sessionId =>
        la <- newDateISO ;;
        ca <- (match Map_get String.eqb (savedSessions w) sessionId with
               | Some d => orElseNow (sd_createdAt d)
               | None => newDateISO
               end) ;;
        let session :=
          mkSessionData sessionId (post_exercise req) (post_messages req) la ca in
        ret (mkResponse 200 (SaveOk session),
             setSaved w (Map_set String.eqb (savedSessions w) sessionId session))
    end
  end.

(** [DELETE]: forget a session, present or not. *)
Definition DELETE (sessionId : option string) (w : World) : Response * World :=
  match (if truthy sessionId then sessionId else None) with
  | None => (mkResponse 400 (ErrorBody "Session ID required"), w)
  | Some sid =>
      (mkResponse 200 DeleteOk,
       setSaved w (Map_delete String.eqb (savedSessions w) sid))
  end.

End Sessions.

(* ================================================================== *)
(** ** Reference notions used to state the properties *)

Definition opt_string_dec (a b : option string) : {a = b} + {a <> b}.
Proof. decide equality. apply string_dec. Defined.

(** The distinct values of a list, each at the place of its first occurrence. *)
Fixpoint first_seen (l : list (option string)) : list (option string) :=
  match l with
  | [] => []
  | k :: r => k :: filter (fun k' => negb (str_opt_eqb k k')) (first_seen r)
  end.

(** How many injects carry a given grouping key. *)
Definition sharing (keys : list (option string)) (k : option string) : nat :=
  count_occ opt_string_dec keys k.

(** One pair (key, number of injects sharing it) per distinct key, in
    first-seen order: what the aggregator is specified to return. *)
Definition countsInOrder (keys : list (option string)) : list (option string * nat) :=
  map (fun k => (k, sharing keys k)) (first_seen keys).

(** The meaningful part of an event list: its names and counts. *)
Definition eventSummary (evs : list Event) : list (option string * nat) :=
  map (fun ev => (ev_name ev, ev_injectCount ev)) evs.

(** An inject with its last-modified stamp blanked out. *)
Definition unstamped (i : Inject) : Inject := with_lastModified None i.

(** The aggregator's map seen as (key, count) pairs. *)
Definition entryCount (kv : option string * Event) : option string * nat :=
  (fst kv, ev_injectCount (snd kv)).

(** Count one more inject under key [k]. *)
Definition bump (k : option string) (kc : option string * nat) : option string * nat :=
  (fst kc, if opt_string_dec (fst kc) k then S (snd kc) else snd kc).

(** Loop invariant of [extractEventsFromInjects]: after the injects with
    grouping keys [keys], the map holds [countsInOrder keys] and every event
    is named after its key. *)
Definition aggregated (keys : list (option string)) (m : EventMap) : Prop :=
  Forall (fun kv => ev_name (snd kv) = fst kv) m /\
  map entryCount m = countsInOrder keys.

(** Two documents that differ in nothing but [version], [timestamp] and the
    last-modified stamps of their injects. *)
Definition sameButVersionAndTime (d1 d2 : MelData) : Prop :=
  melId d1 = melId d2
  /\ totalInjects d1 = totalInjects d2
  /\ events d1 = events d2
  /\ map unstamped (injects d1) = map unstamped (injects d2).

(** Two documents with the same content: as above, but events are compared
    by name and count, not by their synthetic identifiers. *)
Definition sameContent (d1 d2 : MelData) : Prop :=
  melId d1 = melId d2
  /\ totalInjects d1 = totalInjects d2
  /\ eventSummary (events d1) = eventSummary (events d2)
  /\ map unstamped (injects d1) = map unstamped (injects d2).


(** Two injects that agree on every field but the last-modified time. *)
Definition sameButLastModified (a b : Inject) : Prop :=
  inj_id a = inj_id b /\ inj_melId a = inj_melId b
  /\ inj_Number a = inj_Number b /\ inj_Serial a = inj_Serial b
  /\ inj_Time a = inj_Time b /\ inj_From a = inj_From b
  /\ inj_Faction a = inj_Faction b /\ inj_To a = inj_To b
  /\ inj_Team a = inj_Team b /\ inj_Method a = inj_Method b
  /\ inj_On a = inj_On b /\ inj_Subject a = inj_Subject b
  /\ inj_Message a = inj_Message b
  /\ inj_originalIndex a = inj_originalIndex b
  /\ inj_extra a = inj_extra b.

(** Two injects that agree on every field but identifier, owner and
    last-modified time: the fields an overwritten entry takes from the
    incoming inject. *)
Definition sameIncomingFields (a b : Inject) : Prop :=
  inj_Number a = inj_Number b /\ inj_Serial a = inj_Serial b
  /\ inj_Time a = inj_Time b /\ inj_From a = inj_From b
  /\ inj_Faction a = inj_Faction b /\ inj_To a = inj_To b
  /\ inj_Team a = inj_Team b /\ inj_Method a = inj_Method b
  /\ inj_On a = inj_On b /\ inj_Subject a = inj_Subject b
  /\ inj_Message a = inj_Message b
  /\ inj_originalIndex a = inj_originalIndex b
  /\ inj_extra a = inj_extra b.

(* ================================================================== *)
(** ** Further notions and the rest of the code *)

(** An inject with its four bookkeeping fields blanked out: what the author
    or the model wrote. *)
Definition authored (i : Inject) : Inject :=
  with_lastModified None (with_originalIndex None (with_melId None (with_id None i))).

(** [session.melHistory] read as a list. *)
Definition historyOf (s : Session) : list HistoryEntry :=
  match melHistory s with Some l => l | None => [] end.

(** A list stands for a [Map] when no key occurs twice; both stores of a
    world are such lists. *)
Definition uniqueKeys {K V} (m : JsMap K V) : Prop := NoDup (Map_keys m).

Definition wellFormed (w : World) : Prop :=
  uniqueKeys (chatSessions w) /\ uniqueKeys (savedSessions w).

(** [a] is an initial segment of [b]. *)
Definition prefixOf {A} (a b : list A) : Prop := exists tail, b = (a ++ tail)%list.

Module ChatOutput.

(** The part of the chat-completion response that [processResponsesApiOutput]
    looks at.  [parsed_updatedInjects] is [Some] when the field is an array,
    [cm_tool_calls] is [Some] when the field is there; a tool call is opaque. *)
Record Parsed := mkParsed {
  parsed_updatedInjects : option (list Inject);
  parsed_action : option string
}.

Record ChoiceMessage := mkChoiceMessage {
  cm_content : option string;
  cm_tool_calls : option (list string);
  cm_parsed : option Parsed
}.

Record Choice := mkChoice { ch_message : option ChoiceMessage }.

Record ResponseData := mkResponseData { choices : option (list Choice) }.

(** [processResponsesApiOutput].  [extractJsonFromContent] works with regular
    expressions and [JSON.parse]; it is taken as a function from the content
    to what it returns. *)
Definition processResponsesApiOutput (extractJsonFromContent : string -> Chat.Extracted)
    (responseData : ResponseData) : Chat.Processed * list string :=
  match choices responseData with
  | Some (choice :: _) =>
      let content :=
        match ch_message choice with
        | Some m => match cm_content m with
                    | Some c => c      (* the empty string is falsy and is the default *)
                    | None => ""
                    end
        | None => ""
        end in
      let toolCalls :=
        match ch_message choice with
        | Some m => match cm_tool_calls m with Some t => t | None => [] end
        | None => []
        end in
      let fromContent :=
        if content =? "" then Chat.NoJson else extractJsonFromContent content in
      match ch_message choice with
      | Some m =>
          match cm_parsed m with
          | Some parsed =>
              match parsed_updatedInjects parsed with
              | Some updatedInjects =>
                  (Chat.mkProcessed content (Chat.InjectArray updatedInjects)
                     (if truthy (parsed_action parsed)
                      then match parsed_action parsed with Some a => a | None => "merge" end
                      else "merge"),
                   toolCalls)
              | None => (Chat.mkProcessed content fromContent "merge", toolCalls)
              end
          | None => (Chat.mkProcessed content fromContent "merge", toolCalls)
          end
      | None => (Chat.mkProcessed content fromContent "merge", toolCalls)
      end
  | _ => (Chat.mkProcessed "" Chat.NoJson "merge", [])
  end.

End ChatOutput.

Module AppUI.

(** The row key of the inject table: [inject.id || `inject-${index}`]. *)
Definition rowKey (inject : Inject) (index : nat) : string :=
  match inj_id inject with
  | Some s => if s =? "" then "inject-" ++ string_of_nat index else s
  | None => "inject-" ++ string_of_nat index
  end.

(** [saveInjectEdit]: the list handed to [onMelUpdate], or [None] when the
    function returns at once because no edit is pending under that key.
    [editedValues] is the component's state object, keyed by row key. *)
Definition saveInjectEdit (displayInjects : list Inject)
    (editedValues : JsMap string Inject) (injectId : string) : option (list Inject) :=
  match Map_get String.eqb editedValues injectId with
  | None => None
  | Some edited =>
      Some (map (fun inject =>
                   if str_opt_eqb (inj_id inject) (Some injectId) then edited else inject)
                displayInjects)
  end.

(** [handleMelUpdate] of the editor page: the [PUT] it sends, or [None] when
    it returns at once for want of a document or a session identifier. *)
Definition handleMelUpdate (currentMel : option MelData) (sessionId : string)
    (updatedInjects : list Inject) : option Chat.PutRequest :=
  match currentMel with
  | None => None
  | Some mel =>
      if sessionId =? "" then None
      else Some (Chat.mkPut (Some sessionId) (Some (melId mel))
                            (Some updatedInjects) (Some "updateInjects"))
  end.

End AppUI.

(** A chat turn has a key to call the model with: [apiKey || process.env...]. *)
Definition keyPresent (req : Chat.PostRequest) (envKey : option string) : Prop :=
  truthy (Chat.post_apiKey req) = true \/ truthy envKey = true.

(** [content || 'Exercise data has been processed using Responses API.'] *)
Definition finalContentOf (out : Chat.Processed) : string :=
  if Chat.proc_content out =? ""
  then "Exercise data has been processed using Responses API."
  else Chat.proc_content out.

(** [currentMelData || session.currentMel], for a session as stored before
    the turn ([None] when the session is new). *)
Definition existingMelOf (req : Chat.PostRequest) (old : option Session)
  : option MelData :=
  match Chat.post_currentMelData req with
  | Some mel => Some mel
  | None => match old with Some s => currentMel s | None => None end
  end.

(** The session a chat turn works on: the stored one, or a new one stamped
    with two readings of the clock. *)
Definition sessionOrNew `{Platform} (old : option Session) (e : Env) : Session * Env :=
  match old with
  | Some s => (s, e)
  | None =>
      (mkSession [] (iso_of (clockReads e)) (iso_of (S (clockReads e))) None None,
       mkEnv (uuidsDrawn e) (S (S (clockReads e))))
  end.

(** [session.currentMel = currentMelData] when the caller sent a snapshot. *)
Definition withSnapshot (req : Chat.PostRequest) (s : Session) : Session :=
  match Chat.post_currentMelData req with
  | Some mel => mkSession (messages s) (lastActivity s) (createdAt s) (Some mel)
                          (melHistory s)
  | None => s
  end.

(** The [source] tag of the history entry of a chat turn. *)
Definition sourceOf (action : string) : string :=
  if action =? "merge" then "partial_update_responses" else "full_creation_responses".

(** [`session_${Date.now()}`] *)
Definition dateNow_session `{Platform} (e : Env) : string * Env :=
  ("session_" ++ ms_of (clockReads e), mkEnv (uuidsDrawn e) (S (clockReads e))).

(** [sessionId || `session_${Date.now()}`] *)
Definition sessionIdFor `{Platform} (req : Chat.PostRequest) (e : Env) : string * Env :=
  match Chat.post_sessionId req with
  | Some s => if s =? "" then dateNow_session e else (s, e)
  | None => dateNow_session e
  end.

(** The structured part of a model reply, when its first choice carries an
    array of updated injects. *)
Definition structuredOf (responseData : ChatOutput.ResponseData)
  : option ChatOutput.Parsed :=
  match ChatOutput.choices responseData with
  | Some (choice :: _) =>
      match ChatOutput.ch_message choice with
      | Some m =>
          match ChatOutput.cm_parsed m with
          | Some parsed =>
              match ChatOutput.parsed_updatedInjects parsed with
              | Some _ => Some parsed
              | None => None
              end
          | None => None
          end
      | None => None
      end
  | _ => None
  end.

(* ================================================================== *)
(** ** Concrete data for the examples *)

Module Sample.

(** A platform whose UUIDs and clock readings are all different. *)
Definition clockwork : Platform :=
  {| uuid_of := fun n => "uuid-" ++ string_of_nat n;
     iso_of := fun n => "2025-01-01T00:00:0" ++ string_of_nat n ++ "Z";
     ms_of := fun n => "173568960000" ++ string_of_nat n |}.

Definition env0 : Env := mkEnv 0 0.

(** An inject as the model returns it: no identifier, no bookkeeping. *)
Definition raw (number : Z) (serial message : string) : Inject :=
  mkInject None None (Some (NumOfNumber number)) (Some serial)
    (Some "T+0") (Some "HQ") (Some "Blue") (Some "All") (Some "Ops")
    (Some "Email") (Some "Day 1") (Some "Subject") (Some message)
    None None [].

Definition five : list Inject :=
  [raw 1 "Alpha" "one"; raw 2 "Alpha" "two"; raw 3 "Bravo" "three";
   raw 4 "Bravo" "four"; raw 5 "Charlie" "five"].

(** The document built from [five], and the state after building it. *)
Definition built : MelData * Env := @createMelVersion clockwork five None env0.

Definition changed3 : Inject := raw 3 "Bravo" "three, revised".

(** A later chat turn that replaces the document by one inject. *)
Definition replaced : MelData * Env :=
  @applyInjects clockwork (Some (fst built)) [changed3] "replace" (snd built).

(** A later chat turn that merges one inject addressed by its number. *)
Definition merged3 : MelData * Env :=
  @mergeMelUpdates clockwork (Some (fst built)) [changed3] (snd built).

(** A batch as long as the document that leaves inject 5 out. *)
Definition sameLength : list Inject :=
  [raw 1 "Alpha" "one"; raw 2 "Alpha" "two"; raw 3 "Bravo" "three";
   raw 4 "Bravo" "four"; raw 6 "Delta" "six"].

Definition mergedSameLength : MelData * Env :=
  @applyInjects clockwork (Some (fst built)) sameLength "merge" (snd built).

(** A document that exists but holds no inject. *)
Definition emptyShell : MelData := fst (@createMelVersion clockwork [] None env0).

(** The built injects sent back unchanged as a replacement. *)
Definition roundTrip : MelData * Env :=
  @updateMelVersion clockwork (fst built) (injects (fst built)) (snd built).

(** A chat session that holds the built document, in an otherwise empty
    world, and an edit of it that names another document. *)
Definition session1 : Session :=
  mkSession [mkMessage "user" "A flood scenario, please." None]
            "2025-01-01T00:00:00Z" "2025-01-01T00:00:00Z"
            (Some (fst built))
            (Some [mkHistory (fst built) "2025-01-01T00:00:00Z"
                             "full_creation_responses"]).

Definition world1 : World := mkWorld [("session_1", session1)] [].

Definition staleEdit : Chat.PutRequest :=
  Chat.mkPut (Some "session_1") (Some "some-other-mel") (Some [changed3])
             (Some "updateInjects").

(** A first chat turn of a new session, answered with five injects. *)
Definition firstTurn : Chat.PostRequest :=
  Chat.mkPost [mkMessage "user" "A flood scenario, please." None]
              (Some "sk-test") (Some "You are Lisa.") None None.

Definition reply : Chat.Upstream :=
  Chat.UpstreamOk (Chat.mkProcessed "Here is the exercise." (Chat.InjectArray five)
                                    "merge").

Definition emptyWorld : World := mkWorld [] [].

Definition afterFirstTurn : Response * World * Env :=
  @Chat.POST clockwork (Some firstTurn) None reply emptyWorld env0.

Definition saveRequest : Sessions.PostRequest :=
  Sessions.mkPost (Some "session_1") None (Some []).

End Sample.

(** More concrete data, for the further properties. *)
Module Scenario.

(** The built document after the model replaced all five injects: the new
    injects carry no identifier. *)
Definition replacedAll : MelData * Env :=
  @updateMelVersion Sample.clockwork (fst Sample.built) Sample.five (snd Sample.built).

(** The built document as a client may send it back, its version at 2^53. *)
Definition saturated : MelData :=
  mkMel (melId (fst Sample.built)) 9007199254740992 (timestamp (fst Sample.built))
        (injects (fst Sample.built)) (totalInjects (fst Sample.built))
        (events (fst Sample.built)).

Definition replacedSaturated : MelData * Env :=
  @applyInjects Sample.clockwork (Some saturated) [Sample.changed3] "replace"
                (snd Sample.built).

(** The round trip of the claim, in replace mode: the injects of the built
    document sent back as a replacement of it, and the same for the document
    built from no inject. *)
Definition roundTripReplace : MelData * Env :=
  @applyInjects Sample.clockwork (Some (fst Sample.built))
                (injects (fst Sample.built)) "replace" (snd Sample.built).

Definition builtEmpty : MelData * Env :=
  @createMelVersion Sample.clockwork [] None Sample.env0.

Definition roundTripEmpty : MelData * Env :=
  @applyInjects Sample.clockwork (Some (fst builtEmpty))
                (injects (fst builtEmpty)) "replace" (snd builtEmpty).

(** The merge of the revised inject 3 into the document whose injects lost
    their identifiers in a replacement. *)
Definition merged3IntoReplaced : MelData * Env :=
  @mergeMelUpdates Sample.clockwork (Some (fst replacedAll)) [Sample.changed3]
                   (snd replacedAll).

(** An inject that addresses nothing in the built document. *)
Definition extra6 : Inject := Sample.raw 6 "Delta" "six".

(** The first inject of the built document. *)
Definition first : Inject :=
  match injects (fst Sample.built) with x :: _ => x | [] => Sample.changed3 end.

(** The third inject of the built document, edited in the table. *)
Definition third : Inject :=
  match injects (fst Sample.built) with _ :: _ :: x :: _ => x | _ => Sample.changed3 end.

Definition thirdEdited : Inject :=
  mkInject (inj_id third) (inj_melId third) (inj_Number third) (inj_Serial third)
    (inj_Time third) (inj_From third) (inj_Faction third) (inj_To third)
    (inj_Team third) (inj_Method third) (inj_On third) (inj_Subject third)
    (Some "three, edited by hand") (inj_originalIndex third)
    (inj_lastModified third) (inj_extra third).

(** The edit of the table as the page sends it. *)
Definition tableEdit : option (list Inject) :=
  AppUI.saveInjectEdit (injects (fst Sample.built)) [("uuid-3", thirdEdited)] "uuid-3".

(** A matching edit request for [Sample.world1]. *)
Definition goodEdit : Chat.PutRequest :=
  Chat.mkPut (Some "session_1") (Some (melId (fst Sample.built)))
             (Some [Sample.changed3]) (Some "updateInjects").

(** A request that is not an edit. *)
Definition noEdit : Chat.PutRequest :=
  Chat.mkPut (Some "session_1") (Some (melId (fst Sample.built))) None None.

(** A later turn of the session of [Sample.world1], with and without key. *)
Definition nextTurn : Chat.PostRequest :=
  Chat.mkPost [mkMessage "user" "A flood scenario, please." None;
               mkMessage "assistant" "Here is the exercise." None;
               mkMessage "user" "Revise inject 3." None]
              (Some "sk-test") (Some "You are Lisa.") (Some "session_1") None.

Definition keylessTurn : Chat.PostRequest :=
  Chat.mkPost [] None None (Some "session_1") None.

(** A turn that opens session ["s9"]. *)
Definition probe : Chat.PostRequest :=
  Chat.mkPost [] (Some "sk-test") None (Some "s9") None.

Definition reply3 : Chat.Processed :=
  Chat.mkProcessed "Inject 3 is revised." (Chat.InjectArray [Sample.changed3]) "merge".

Definition chatter : Chat.Processed :=
  Chat.mkProcessed "Which inject do you mean?" Chat.NoJson "merge".

(** A reply whose tool call carries [updatedInjects: 0], and one that carries
    an object there. *)
Definition zeroReply : Chat.Processed :=
  Chat.mkProcessed "Done." (Chat.NotAnArray false) "merge".

Definition objectReply : Chat.Processed :=
  Chat.mkProcessed "Done." (Chat.NotAnArray true) "merge".

(** A world with one saved session. *)
Definition savedOne : SessionData :=
  mkSessionData "session_1" None (Some [mkMessage "user" "Hello" None])
                "2024-12-31T23:59:59Z" "2024-12-31T23:00:00Z".

Definition world2 : World := mkWorld [("session_1", Sample.session1)]
                                     [("session_1", savedOne)].

(** A structured model reply and a free-text one. *)
Definition structured : ChatOutput.ResponseData :=
  ChatOutput.mkResponseData
    (Some [ChatOutput.mkChoice
             (Some (ChatOutput.mkChoiceMessage (Some "Done.") None
                      (Some (ChatOutput.mkParsed (Some [Sample.changed3])
                                                 (Some "replace")))))]).

Definition freeText : ChatOutput.ResponseData :=
  ChatOutput.mkResponseData
    (Some [ChatOutput.mkChoice
             (Some (ChatOutput.mkChoiceMessage (Some "Done.") None None))]).

End Scenario.

(* ================================================================== *)
(** ** Running the monad *)

Local Open Scope list_scope.

Lemma bind_run {A B} (m : M A) (k : A -> M B) (e : Env) :
  bind m k e = k (fst (m e)) (snd (m e)).
Proof. unfold bind. destruct (m e); reflexivity. Qed.

Lemma forEach_snoc {S A} (f : S -> A -> M S) (l : list A) (x : A) (s : S) (e : Env) :
  forEach (l ++ [x]) f s e = f (fst (forEach l f s e)) x (snd (forEach l f s e)).
Proof.
  revert s e. induction l as [|y l IH]; intros s e; simpl.
  - rewrite bind_run. simpl. unfold ret. destruct (f s x e); reflexivity.
  - rewrite !bind_run. apply IH.
Qed.

Section MapFrom.
Context {A B : Type} (f : A -> nat -> M B).

Lemma mapFrom_length (l : list A) (i : nat) (e : Env) :
  length (fst (mapFrom f l i e)) = length l.
Proof.
  revert i e. induction l as [|x l IH]; intros i e; simpl; [reflexivity|].
  rewrite !bind_run. simpl. now rewrite IH.
Qed.

(** A projection the callback leaves alone is left alone by the map. *)
Lemma mapFrom_preserves {C} (g : B -> C) (g' : A -> C)
      (Hf : forall x i e, g (fst (f x i e)) = g' x) (l : list A) (i : nat) (e : Env) :
  map g (fst (mapFrom f l i e)) = map g' l.
Proof.
  revert i e. induction l as [|x l IH]; intros i e; simpl; [reflexivity|].
  rewrite !bind_run. simpl. now rewrite IH, Hf.
Qed.


Lemma mapFrom_Forall (P : B -> Prop)
      (Hf : forall x i e, P (fst (f x i e))) (l : list A) (i : nat) (e : Env) :
  Forall P (fst (mapFrom f l i e)).
Proof.
  revert i e. induction l as [|x l IH]; intros i e; simpl; [constructor|].
  rewrite !bind_run. simpl. constructor; [apply Hf | apply IH].
Qed.
End MapFrom.

(* ================================================================== *)
(** ** Equality tests *)

Lemma str_opt_eqb_eq (a b : option string) : str_opt_eqb a b = true <-> a = b.
Proof.
  destruct a as [x|], b as [y|]; simpl; try (split; congruence).
  rewrite String.eqb_eq. split; congruence.
Qed.

Lemma str_opt_eqb_neq (a b : option string) : str_opt_eqb a b = false <-> a <> b.
Proof.
  rewrite <- str_opt_eqb_eq. destruct (str_opt_eqb a b); split; congruence.
Qed.

Lemma str_opt_eqb_refl (a : option string) : str_opt_eqb a a = true.
Proof. now apply str_opt_eqb_eq. Qed.

(* ================================================================== *)
(** ** First-seen order *)

Lemma first_seen_In (l : list (option string)) (k : option string) :
  In k (first_seen l) <-> In k l.
Proof.
  induction l as [|a l IH]; simpl; [tauto|].
  rewrite filter_In, IH, negb_true_iff, str_opt_eqb_neq.
  destruct (opt_string_dec a k); intuition congruence.
Qed.

Lemma first_seen_NoDup (l : list (option string)) : NoDup (first_seen l).
Proof.
  induction l as [|a l IH]; simpl; constructor.
  - rewrite filter_In, negb_true_iff, str_opt_eqb_neq. intuition congruence.
  - now apply NoDup_filter.
Qed.

Lemma first_seen_snoc (l : list (option string)) (k : option string) :
  first_seen (l ++ [k]) =
  if in_dec opt_string_dec k l then first_seen l else first_seen l ++ [k].
Proof.
  induction l as [|a l IH]; simpl; [reflexivity|].
  rewrite IH. destruct (in_dec opt_string_dec k l) as [Hin|Hout].
  - destruct (opt_string_dec a k); reflexivity.
  - rewrite filter_app. simpl.
    destruct (opt_string_dec a k) as [->|Hne].
    + rewrite str_opt_eqb_refl. simpl. now rewrite app_nil_r.
    + destruct (in_dec opt_string_dec k (a :: l)) as [[?|?]|_]; try contradiction.
      apply str_opt_eqb_neq in Hne. now rewrite Hne.
Qed.

(** The number of distinct values does not depend on how they are listed. *)
Lemma first_seen_length (l : list (option string)) :
  length (first_seen l) = length (nodup opt_string_dec l).
Proof.
  apply Permutation_length, NoDup_Permutation.
  - apply first_seen_NoDup.
  - apply NoDup_nodup.
  - intro k. now rewrite first_seen_In, nodup_In.
Qed.

(* ================================================================== *)
(** ** Facts about [Map] *)

Section MapFacts.
Context {K V : Type} (keq : K -> K -> bool).
Hypothesis keq_eq : forall a b, keq a b = true <-> a = b.

Lemma Map_get_None (m : JsMap K V) (k : K) :
  Map_get keq m k = None <-> ~ In k (Map_keys m).
Proof.
  induction m as [|[k' v] m IH]; simpl; [tauto|].
  destruct (keq k' k) eqn:E.
  - apply keq_eq in E. split; [discriminate | intros H; exfalso; auto].
  - rewrite IH. split; [intros H [->|?]; auto | tauto].
    assert (keq k k = true) by now apply keq_eq. congruence.
Qed.

Lemma Map_get_In (m : JsMap K V) (k : K) (v : V) :
  Map_get keq m k = Some v -> In (k, v) m.
Proof.
  induction m as [|[k' v'] m IH]; simpl; [discriminate|].
  destruct (keq k' k) eqn:E.
  - apply keq_eq in E. intros [= ->]. left. now subst.
  - auto.
Qed.

Lemma Map_set_fresh (m : JsMap K V) (k : K) (v : V) :
  Map_get keq m k = None -> Map_set keq m k v = m ++ [(k, v)].
Proof.
  induction m as [|[k' v'] m IH]; simpl; [reflexivity|].
  destruct (keq k' k); [discriminate|]. intros H. now rewrite IH.
Qed.

Lemma Map_get_snoc (m : JsMap K V) (k : K) (v : V) :
  Map_get keq m k = None -> Map_get keq (m ++ [(k, v)]) k = Some v.
Proof.
  induction m as [|[k' v'] m IH]; simpl.
  - intros _. assert (keq k k = true) as -> by now apply keq_eq. reflexivity.
  - destruct (keq k' k); [discriminate | exact IH].
Qed.

Lemma Map_set_snoc (m : JsMap K V) (k : K) (v v' : V) :
  Map_get keq m k = None -> Map_set keq (m ++ [(k, v)]) k v' = m ++ [(k, v')].
Proof.
  induction m as [|[k' w] m IH]; simpl.
  - intros _. assert (keq k k = true) as -> by now apply keq_eq. reflexivity.
  - destruct (keq k' k); [discriminate|]. intros H. now rewrite IH.
Qed.

Lemma Map_set_Forall (P : K * V -> Prop) (m : JsMap K V) (k : K) (v : V) :
  Forall P m -> P (k, v) -> Forall P (Map_set keq m k v).
Proof.
  induction m as [|[k' w] m IH]; simpl; intros Hm Hkv.
  - now constructor.
  - inversion Hm; subst. destruct (keq k' k); constructor; auto.
Qed.

Lemma Map_get_set_same (m : JsMap K V) (k : K) (v : V) :
  Map_get keq (Map_set keq m k v) k = Some v.
Proof.
  assert (keq k k = true) as Hkk by now apply keq_eq.
  induction m as [|[k' w] m IH]; simpl.
  - now rewrite Hkk.
  - destruct (keq k' k) eqn:E; simpl; [now rewrite Hkk | now rewrite E].
Qed.

Lemma Map_get_set_other (m : JsMap K V) (k k' : K) (v : V) :
  k <> k' -> Map_get keq (Map_set keq m k v) k' = Map_get keq m k'.
Proof.
  intros Hne. induction m as [|[k0 w] m IH]; simpl.
  - destruct (keq k k') eqn:E; [apply keq_eq in E; contradiction | reflexivity].
  - destruct (keq k0 k) eqn:E; simpl.
    + apply keq_eq in E. subst k0.
      destruct (keq k k') eqn:E'; [apply keq_eq in E'; contradiction | reflexivity].
    + destruct (keq k0 k'); [reflexivity | exact IH].
Qed.
End MapFacts.

(* ================================================================== *)
(** ** The aggregator computes [countsInOrder] *)


Lemma bump_other (k : option string) (l : list (option string * nat)) :
  ~ In k (map fst l) -> map (bump k) l = l.
Proof.
  induction l as [|[k' c] l IH]; simpl; intros H; [reflexivity|].
  unfold bump at 1; simpl. destruct (opt_string_dec k' k) as [->|_]; [tauto|].
  rewrite IH; tauto.
Qed.

Lemma Map_set_bump (m : EventMap) (k : option string) (ev : Event) :
  NoDup (Map_keys m) ->
  Map_get str_opt_eqb m k = Some ev ->
  map entryCount
      (Map_set str_opt_eqb m k (mkEvent (ev_id ev) (ev_name ev) (S (ev_injectCount ev))))
  = map (bump k) (map entryCount m).
Proof.
  induction m as [|[k' w] m IH]; simpl; intros Hnd Hget; [discriminate|].
  inversion Hnd as [|? ? Hnotin Hnd']; subst.
  destruct (str_opt_eqb k' k) eqn:E.
  - apply str_opt_eqb_eq in E. subst k'. injection Hget as ->. simpl.
    unfold bump at 1, entryCount at 1 2; simpl.
    destruct (opt_string_dec k k); [|congruence].
    f_equal. symmetry. apply bump_other.
    rewrite map_map. simpl. exact Hnotin.
  - apply str_opt_eqb_neq in E. simpl.
    unfold bump at 1, entryCount at 1 3; simpl.
    destruct (opt_string_dec k' k); [contradiction|].
    f_equal. now apply IH.
Qed.

Lemma sharing_snoc (keys : list (option string)) (k k' : option string) :
  sharing (keys ++ [k]) k' = if opt_string_dec k' k then S (sharing keys k') else sharing keys k'.
Proof.
  unfold sharing. rewrite count_occ_app. simpl.
  destruct (opt_string_dec k k'), (opt_string_dec k' k); try congruence; lia.
Qed.

Lemma countsInOrder_snoc (keys : list (option string)) (k : option string) :
  countsInOrder (keys ++ [k]) =
  if in_dec opt_string_dec k keys
  then map (bump k) (countsInOrder keys)
  else countsInOrder keys ++ [(k, 1)].
Proof.
  unfold countsInOrder. rewrite first_seen_snoc.
  destruct (in_dec opt_string_dec k keys) as [Hin|Hout].
  - rewrite map_map. apply map_ext. intros k'. unfold bump; simpl.
    now rewrite sharing_snoc.
  - rewrite map_app. simpl. f_equal.
    + apply map_ext_in. intros k' Hk'. rewrite sharing_snoc.
      destruct (opt_string_dec k' k) as [->|_]; [|reflexivity].
      apply (proj1 (first_seen_In _ _)) in Hk'. contradiction.
    + rewrite sharing_snoc. destruct (opt_string_dec k k); [|congruence].
      unfold sharing. now rewrite (proj1 (count_occ_not_In opt_string_dec keys k) Hout).
Qed.


Lemma aggregated_keys keys m : aggregated keys m -> Map_keys m = first_seen keys.
Proof.
  intros [_ H]. apply (f_equal (map fst)) in H.
  unfold countsInOrder, entryCount in H. rewrite !map_map in H. simpl in H.
  now rewrite map_id in H.
Qed.

Section Aggregator.
Context `{Platform}.

Lemma countInject_aggregated keys m inject e :
  aggregated keys m ->
  aggregated (keys ++ [inj_Serial inject]) (fst (countInject m inject e)).
Proof.
  intros Hagg. pose proof (aggregated_keys _ _ Hagg) as Hkeys.
  destruct Hagg as [Hnames Hcounts].
  set (k := inj_Serial inject).
  unfold aggregated, countInject. fold k. rewrite bind_run. unfold Map_has.
  rewrite countsInOrder_snoc.
  destruct (Map_get str_opt_eqb m k) as [ev|] eqn:Hget; simpl.
  - (* the key is known: its event is counted up in place *)
    rewrite Hget.
    assert (In k keys) as Hin.
    { apply first_seen_In. rewrite <- Hkeys.
      apply Map_get_In in Hget; [|exact str_opt_eqb_eq].
      change k with (fst (k, ev)). now apply in_map. }
    destruct (in_dec opt_string_dec k keys); [|contradiction].
    split.
    + apply Map_set_Forall; [exact Hnames|]. simpl.
      apply Map_get_In in Hget; [|exact str_opt_eqb_eq].
      rewrite Forall_forall in Hnames. exact (Hnames _ Hget).
    + rewrite Map_set_bump; [now rewrite Hcounts | | exact Hget].
      rewrite Hkeys. apply first_seen_NoDup.
  - (* a new key: a fresh event is appended, then counted once *)
    assert (~ In k keys) as Hout.
    { rewrite <- first_seen_In, <- Hkeys.
      now apply (Map_get_None str_opt_eqb str_opt_eqb_eq). }
    destruct (in_dec opt_string_dec k keys); [contradiction|].
    rewrite (Map_set_fresh str_opt_eqb m k _ Hget).
    rewrite (Map_get_snoc str_opt_eqb str_opt_eqb_eq m k _ Hget).
    rewrite (Map_set_snoc str_opt_eqb str_opt_eqb_eq m k _ _ Hget).
    split.
    + apply Forall_app. split; [exact Hnames | now constructor].
    + rewrite map_app, Hcounts. reflexivity.
Qed.

Lemma forEach_countInject_aggregated (l : list Inject) (e : Env) :
  aggregated (map inj_Serial l) (fst (forEach l countInject [] e)).
Proof.
  induction l as [|x l IH] using rev_ind.
  - split; [constructor | reflexivity].
  - rewrite forEach_snoc, map_app. simpl. now apply countInject_aggregated.
Qed.

Lemma extractEvents_summary (l : list Inject) (e : Env) :
  eventSummary (fst (extractEventsFromInjects l e)) = countsInOrder (map inj_Serial l).
Proof.
  unfold extractEventsFromInjects. rewrite bind_run. simpl.
  destruct (forEach_countInject_aggregated l e) as [Hnames Hcounts].
  rewrite <- Hcounts. unfold eventSummary, Map_values. rewrite map_map.
  apply map_ext_in. intros kv Hkv. rewrite Forall_forall in Hnames.
  unfold entryCount. now rewrite (Hnames _ Hkv).
Qed.

Lemma extractEvents_names (l : list Inject) (e : Env) :
  map ev_name (fst (extractEventsFromInjects l e)) = first_seen (map inj_Serial l).
Proof.
  pose proof (extractEvents_summary l e) as Hsum.
  apply (f_equal (map fst)) in Hsum.
  unfold eventSummary, countsInOrder in Hsum. rewrite !map_map in Hsum.
  simpl in Hsum. now rewrite map_id in Hsum.
Qed.
End Aggregator.

(* ================================================================== *)
(** ** Event aggregator *)

(** C7.  For every ordered sequence of injects, [extractEventsFromInjects]
    returns exactly one event per distinct [Serial] value, in first-seen
    order, each counting the injects that share its key; on the empty
    sequence it returns the empty sequence. *)
Theorem extractEvents_one_per_key `{Platform} (l : list Inject) (e : Env) :
  let keys := map inj_Serial l in
  let evs := fst (extractEventsFromInjects l e) in
  map ev_name evs = first_seen keys
  /\ NoDup (map ev_name evs)
  /\ (forall k, In k (map ev_name evs) <-> In k keys)
  /\ Forall (fun ev => ev_injectCount ev = sharing keys (ev_name ev)) evs
  /\ eventSummary evs = countsInOrder keys
  /\ extractEventsFromInjects [] e = ([], e).
Proof.
  intros keys evs.
  pose proof (extractEvents_summary l e) as Hsum. fold evs keys in Hsum.
  pose proof (extractEvents_names l e) as Hnames. fold evs keys in Hnames.
  repeat split.
  - exact Hnames.
  - rewrite Hnames. apply first_seen_NoDup.
  - rewrite Hnames. apply first_seen_In.
  - rewrite Hnames. apply first_seen_In.
  - apply Forall_forall. intros ev Hev.
    assert (In (ev_name ev, ev_injectCount ev) (countsInOrder keys)) as Hin.
    { rewrite <- Hsum. unfold eventSummary.
      now apply (in_map (fun ev => (ev_name ev, ev_injectCount ev))). }
    unfold countsInOrder in Hin. apply in_map_iff in Hin.
    destruct Hin as (k & [= <- ->] & _). reflexivity.
  - exact Hsum.
Qed.

Example extractEvents_five :
  eventSummary (fst (@extractEventsFromInjects Sample.clockwork Sample.five Sample.env0))
  = [(Some "Alpha", 2); (Some "Bravo", 2); (Some "Charlie", 1)].
Proof. reflexivity. Qed.

(* ================================================================== *)
(** ** Document builder *)

Section Builder.
Context `{Platform}.

Lemma createMelVersion_run (l : list Inject) (mid : option string) (e : Env) :
  let cid := fst (orRandomUUID mid e) in
  let e1 := snd (orRandomUUID mid e) in
  let ts := iso_of (clockReads e1) in
  let r := mapFrom (stampNew cid ts) l 0 (mkEnv (uuidsDrawn e1) (S (clockReads e1))) in
  fst (createMelVersion l mid e)
  = mkMel cid 1 ts (fst r) (length (fst r))
      (fst (extractEventsFromInjects (fst r) (snd r))).
Proof.
  unfold createMelVersion. rewrite !bind_run. reflexivity.
Qed.

Lemma stampNew_Serial cid ts x i e :
  inj_Serial (fst (stampNew cid ts x i e)) = inj_Serial x.
Proof. unfold stampNew. rewrite bind_run. reflexivity. Qed.


Lemma orRandomUUID_truthy (o : option string) (e : Env) :
  truthy o = true -> Some (fst (orRandomUUID o e)) = o.
Proof.
  destruct o as [s|]; simpl; [|discriminate].
  destruct (s =? "")%string; [discriminate | reflexivity].
Qed.
End Builder.

(** C5.  For any inject list [l], the document built by [createMelVersion]
    has version 1, as many injects as [l] (which [totalInjects] records), and
    as many events as there are distinct [Serial] values in [l]. *)
Theorem createMelVersion_shape `{Platform} (l : list Inject) (mid : option string) (e : Env) :
  let doc := fst (createMelVersion l mid e) in
  version doc = 1%Z
  /\ length (injects doc) = length l
  /\ totalInjects doc = length l
  /\ length (events doc) = length (nodup opt_string_dec (map inj_Serial l)).
Proof.
  intros doc. unfold doc. rewrite createMelVersion_run. simpl.
  rewrite mapFrom_length. repeat split.
  rewrite <- first_seen_length.
  match goal with
  | |- length (fst (extractEventsFromInjects ?l' ?e')) = _ =>
      pose proof (extractEvents_names l' e') as Hn
  end.
  rewrite (mapFrom_preserves _ inj_Serial inj_Serial (stampNew_Serial _ _)) in Hn.
  rewrite <- Hn. now rewrite length_map.
Qed.

Example createMelVersion_five :
  let doc := fst Sample.built in
  version doc = 1%Z /\ totalInjects doc = 5 /\ length (events doc) = 3
  /\ map inj_id (injects doc)
     = [Some "uuid-1"; Some "uuid-2"; Some "uuid-3"; Some "uuid-4"; Some "uuid-5"].
Proof. repeat split. Qed.

(* ================================================================== *)
(** ** Replacement: [updateMelVersion] *)

Lemma unstamped_with_lastModified (v : option string) (i : Inject) :
  unstamped (with_lastModified v i) = unstamped i.
Proof. reflexivity. Qed.

Lemma map_unstamped_stamp (v : option string) (l : list Inject) :
  map unstamped (map (with_lastModified v) l) = map unstamped l.
Proof. rewrite map_map. now apply map_ext. Qed.

(** Double addition is exact as long as the sum fits 53 bits. *)
Lemma roundToDouble_small (z : Z) : (Z.abs z < 2 ^ 53)%Z -> roundToDouble z = z.
Proof.
  intros Hz. unfold roundToDouble. apply Z.ltb_lt in Hz. now rewrite Hz.
Qed.

Lemma jsAdd_safe (v : Z) : isSafeInteger v = true -> jsAdd v 1 = (v + 1)%Z.
Proof.
  unfold isSafeInteger, jsAdd. intros Hv. apply Z.leb_le in Hv.
  change (2 ^ 53)%Z with 9007199254740992%Z in Hv.
  destruct (Z_lt_ge_dec (Z.abs (v + 1)) 9007199254740992) as [Hlt|Hge].
  - now apply roundToDouble_small.
  - assert (v + 1 = 9007199254740992)%Z as -> by lia. reflexivity.
Qed.

Lemma sameButLastModified_stamp (ts : option string) (i : Inject) :
  sameButLastModified (with_lastModified ts i) i.
Proof. unfold sameButLastModified. simpl. repeat split. Qed.

Section Replace.
Context `{Platform}.

Lemma updateMelVersion_run (cur : MelData) (incoming : list Inject) (e : Env) :
  let ts := iso_of (clockReads e) in
  fst (updateMelVersion cur incoming e)
  = mkMel (melId cur) (jsAdd (version cur) 1) ts
      (map (with_lastModified (Some ts)) incoming)
      (length incoming)
      (fst (extractEventsFromInjects incoming
              (mkEnv (uuidsDrawn e) (S (clockReads e))))).
Proof. unfold updateMelVersion. rewrite !bind_run. reflexivity. Qed.

(** What a replacement does, whoever asks for it. *)
Lemma updateMelVersion_spec (cur : MelData) (incoming : list Inject) (e : Env) :
  let doc := fst (updateMelVersion cur incoming e) in
  injects doc = map (with_lastModified (Some (timestamp doc))) incoming
  /\ map unstamped (injects doc) = map unstamped incoming
  /\ length (injects doc) = length incoming
  /\ totalInjects doc = length incoming
  /\ version doc = jsAdd (version cur) 1
  /\ melId doc = melId cur
  /\ eventSummary (events doc) = countsInOrder (map inj_Serial incoming).
Proof.
  intros doc. unfold doc. rewrite updateMelVersion_run. simpl.
  rewrite map_unstamped_stamp, length_map, extractEvents_summary.
  repeat split.
Qed.

(** The same, field by field: every inject of the result is the incoming
    inject of its position in all but the last-modified time, which is the
    reading of the clock the replacement starts with. *)
Lemma updateMelVersion_stamps (cur : MelData) (incoming : list Inject) (e : Env) :
  let doc := fst (updateMelVersion cur incoming e) in
  Forall2 sameButLastModified (injects doc) incoming
  /\ Forall (fun i => inj_lastModified i = Some (timestamp doc)) (injects doc)
  /\ timestamp doc = iso_of (clockReads e).
Proof.
  intros doc. unfold doc. rewrite updateMelVersion_run. simpl.
  split; [|split; [|reflexivity]].
  - induction incoming as [|x l IH]; simpl; constructor; [|exact IH].
    apply sameButLastModified_stamp.
  - apply Forall_forall. intros i Hi.
    apply in_map_iff in Hi. now destruct Hi as (x & <- & _).
Qed.

Lemma applyInjects_replace (cur : MelData) (incoming : list Inject)
      (action : string) (e : Env) :
  injects cur <> [] -> action <> "merge"%string ->
  applyInjects (Some cur) incoming action e = updateMelVersion cur incoming e.
Proof.
  intros Hne Hact. unfold applyInjects.
  destruct (injects cur) as [|x r] eqn:E; [contradiction|]. simpl.
  apply String.eqb_neq in Hact. now rewrite Hact.
Qed.

Lemma applyInjects_merge (cur : MelData) (incoming : list Inject) (e : Env) :
  injects cur <> [] ->
  applyInjects (Some cur) incoming "merge" e = mergeMelUpdates (Some cur) incoming e.
Proof.
  intros Hne. unfold applyInjects.
  destruct (injects cur) as [|x r] eqn:E; [contradiction|]. reflexivity.
Qed.

Lemma mergeMelUpdates_not_shorter (cur : MelData) (incoming : list Inject) (e : Env) :
  length (injects cur) <= length incoming ->
  mergeMelUpdates (Some cur) incoming e = updateMelVersion cur incoming e.
Proof.
  intros Hlen. unfold mergeMelUpdates.
  apply Nat.ltb_ge in Hlen. now rewrite Hlen.
Qed.
End Replace.

(** C6 (amended).  In replace mode (any action but ["merge"]) on a document
    that has injects, every inject of the result is the incoming inject of
    its position in all fields but the last-modified time, which on every
    inject is the document's new timestamp, the reading of the clock at the
    replacement; the length and [totalInjects] are the incoming length; the
    document identifier is the existing one; events are those of the incoming
    list; an existing inject that is not in the incoming list is not in the
    result.  The version is the prior version plus 1 in double arithmetic:
    exactly plus 1 when the prior version is a safe integer. *)
Theorem replace_takes_incoming `{Platform} (cur : MelData) (incoming : list Inject)
    (action : string) (e : Env) :
  injects cur <> [] ->
  action <> "merge"%string ->
  let doc := fst (applyInjects (Some cur) incoming action e) in
  Forall2 sameButLastModified (injects doc) incoming
  /\ Forall (fun i => inj_lastModified i = Some (timestamp doc)) (injects doc)
  /\ timestamp doc = iso_of (clockReads e)
  /\ injects doc = map (with_lastModified (Some (timestamp doc))) incoming
  /\ map unstamped (injects doc) = map unstamped incoming
  /\ length (injects doc) = length incoming
  /\ totalInjects doc = length incoming
  /\ version doc = jsAdd (version cur) 1
  /\ (isSafeInteger (version cur) = true -> version doc = (version cur + 1)%Z)
  /\ melId doc = melId cur
  /\ eventSummary (events doc) = countsInOrder (map inj_Serial incoming)
  /\ (forall old, In old (injects cur) ->
        ~ In (unstamped old) (map unstamped incoming) ->
        ~ In (unstamped old) (map unstamped (injects doc)))
  /\ (forall old, In old (injects cur) ->
        (forall u, In u incoming -> ~ sameButLastModified u old) ->
        forall d, In d (injects doc) -> ~ sameButLastModified d old).
Proof.
  intros Hne Hact doc. unfold doc.
  rewrite (applyInjects_replace cur incoming action e Hne Hact).
  destruct (updateMelVersion_spec cur incoming e) as (H1 & H2 & H3 & H4 & H5 & H6 & H7).
  destruct (updateMelVersion_stamps cur incoming e) as (S1 & S2 & S3).
  split; [exact S1|]. split; [exact S2|]. split; [exact S3|].
  split; [exact H1|]. split; [exact H2|]. split; [exact H3|]. split; [exact H4|].
  split; [exact H5|]. split; [intros Hsafe; now rewrite H5, jsAdd_safe|].
  split; [exact H6|]. split; [exact H7|]. split.
  - intros old _ Hout. now rewrite H2.
  - intros old _ Hout d Hd Hsame. rewrite H1 in Hd.
    apply in_map_iff in Hd. destruct Hd as (u & <- & Hu).
    apply (Hout u Hu). unfold sameButLastModified in *. simpl in Hsame. exact Hsame.
Qed.

Lemma replace_takes_incoming_witness :
  injects (fst Sample.built) <> []
  /\ "replace"%string <> "merge"%string
  /\ isSafeInteger (version (fst Sample.built)) = true
  /\ Forall (fun i => inj_lastModified i = Some (timestamp (fst Sample.replaced)))
            (injects (fst Sample.replaced))
  /\ totalInjects (fst Sample.replaced) = 1
  /\ version (fst Sample.replaced) = 2%Z
  /\ melId (fst Sample.replaced) = melId (fst Sample.built).
Proof.
  assert (injects (fst Sample.built) <> []) as H1 by (vm_compute; discriminate).
  assert ("replace"%string <> "merge"%string) as H2 by discriminate.
  assert (isSafeInteger (version (fst Sample.built)) = true) as H3 by reflexivity.
  destruct (@replace_takes_incoming Sample.clockwork (fst Sample.built)
              [Sample.changed3] "replace" (snd Sample.built) H1 H2)
    as (_ & Hs & _ & _ & _ & _ & Ht & _ & Hv & Hm & _).
  split; [exact H1|]. split; [exact H2|]. split; [exact H3|].
  split; [exact Hs|]. split; [exact Ht|]. split; [exact (Hv H3) | exact Hm].
Defined.

(** C6 as stated fails: the version is a double.  A document a client sends
    back with version 2^53 keeps that version when it is replaced, since
    2^53 + 1 is not a double and rounds to 2^53. *)
Lemma replace_at_2_53_keeps_version :
  injects Scenario.saturated <> []
  /\ version Scenario.saturated = (2 ^ 53)%Z
  /\ version (fst Scenario.replacedSaturated) = (2 ^ 53)%Z
  /\ version (fst Scenario.replacedSaturated) <> (version Scenario.saturated + 1)%Z.
Proof.
  split; [vm_compute; discriminate|]. split; [reflexivity|].
  split; [reflexivity|]. vm_compute. discriminate.
Qed.

(** C3.  In merge mode, an incoming batch that is not strictly shorter than
    the existing inject list is not reconciled field by field: the result is
    the one replace mode gives, so its injects are the incoming ones and an
    existing inject that is not in the incoming batch is gone. *)
Theorem merge_of_full_length_replaces `{Platform} (cur : MelData)
    (incoming : list Inject) (e : Env) :
  injects cur <> [] ->
  length (injects cur) <= length incoming ->
  let doc := fst (applyInjects (Some cur) incoming "merge" e) in
  applyInjects (Some cur) incoming "merge" e
    = applyInjects (Some cur) incoming "replace" e
  /\ mergeMelUpdates (Some cur) incoming e = updateMelVersion cur incoming e
  /\ map unstamped (injects doc) = map unstamped incoming
  /\ (forall old, In old (injects cur) ->
        ~ In (unstamped old) (map unstamped incoming) ->
        ~ In (unstamped old) (map unstamped (injects doc))).
Proof.
  intros Hne Hlen doc. unfold doc.
  rewrite (applyInjects_merge cur incoming e Hne).
  rewrite (applyInjects_replace cur incoming "replace" e Hne) by discriminate.
  rewrite (mergeMelUpdates_not_shorter cur incoming e Hlen).
  destruct (updateMelVersion_spec cur incoming e) as (_ & H2 & _).
  repeat split; try assumption.
  intros old _ Hout. now rewrite H2.
Qed.

Lemma merge_of_full_length_replaces_witness :
  injects (fst Sample.built) <> []
  /\ length (injects (fst Sample.built)) <= length Sample.sameLength
  /\ map unstamped (injects (fst Sample.mergedSameLength))
     = map unstamped Sample.sameLength.
Proof.
  assert (injects (fst Sample.built) <> []) as H1 by (vm_compute; discriminate).
  assert (length (injects (fst Sample.built)) <= length Sample.sameLength) as H2
    by (vm_compute; lia).
  destruct (@merge_of_full_length_replaces Sample.clockwork (fst Sample.built)
              Sample.sameLength (snd Sample.built) H1 H2) as (_ & _ & Hu & _).
  repeat split; assumption.
Defined.

Example merge_of_full_length_drops_inject5 :
  map inj_Number (injects (fst Sample.built))
    = map (fun z => Some (NumOfNumber z)) [1; 2; 3; 4; 5]%Z
  /\ map inj_Number (injects (fst Sample.mergedSameLength))
    = map (fun z => Some (NumOfNumber z)) [1; 2; 3; 4; 6]%Z.
Proof. split; reflexivity. Qed.

(* ================================================================== *)
(** ** Delegation to the builder *)

(** C2.  Whatever the mode, when there is no existing document or its
    inject list is empty, the merge step of a chat turn is exactly a build
    of a brand-new document from the incoming injects, and the result has
    version 1. *)
Theorem applyInjects_without_injects_builds `{Platform}
    (existing : option MelData) (incoming : list Inject) (action : string) (e : Env) :
  (existing = None \/ exists mel, existing = Some mel /\ injects mel = []) ->
  applyInjects existing incoming action e = createMelVersion incoming None e
  /\ version (fst (applyInjects existing incoming action e)) = 1%Z.
Proof.
  intros Hex.
  assert (applyInjects existing incoming action e = createMelVersion incoming None e)
    as Heq.
  { destruct Hex as [->|(mel & -> & Hnil)]; [reflexivity|].
    unfold applyInjects. now rewrite Hnil. }
  split; [exact Heq|]. rewrite Heq.
  now rewrite createMelVersion_run.
Qed.

Lemma applyInjects_without_injects_builds_witness :
  (Some Sample.emptyShell = None
   \/ exists mel, Some Sample.emptyShell = Some mel /\ injects mel = [])
  /\ version (fst (@applyInjects Sample.clockwork (Some Sample.emptyShell)
                     Sample.five "merge" Sample.env0)) = 1%Z.
Proof.
  assert (Some Sample.emptyShell = None
          \/ exists mel, Some Sample.emptyShell = Some mel /\ injects mel = [])
    as H1 by (right; exists Sample.emptyShell; split; reflexivity).
  split; [exact H1|].
  exact (proj2 (@applyInjects_without_injects_builds Sample.clockwork
                  (Some Sample.emptyShell) Sample.five "merge" Sample.env0 H1)).
Defined.

(** The merge function on its own delegates for a missing document. *)
Lemma mergeMelUpdates_null `{Platform} (incoming : list Inject) (e : Env) :
  mergeMelUpdates None incoming e = createMelVersion incoming None e.
Proof. reflexivity. Qed.

(** Called on its own with a document that has no inject, [mergeMelUpdates]
    does not build: it replaces.  A chat turn never calls it so, since
    [applyInjects] hands such a document to the builder. *)
Remark mergeMelUpdates_on_empty_shell :
  version (fst (@mergeMelUpdates Sample.clockwork (Some Sample.emptyShell)
                  Sample.five Sample.env0)) = 2%Z
  /\ version (fst (@applyInjects Sample.clockwork (Some Sample.emptyShell)
                     Sample.five "merge" Sample.env0)) = 1%Z.
Proof. split; reflexivity. Qed.

(* ================================================================== *)
(** ** Partial merge: [mergeInject] *)

Section ArrayFacts.
Context {A : Type}.

Lemma findIndex_Some (p : A -> bool) (l : list A) (i : nat) :
  findIndex p l = Some i -> exists x, nth_error l i = Some x /\ p x = true.
Proof.
  revert i. induction l as [|y l IH]; simpl; intros i; [discriminate|].
  destruct (p y) eqn:E.
  - intros [= <-]. now exists y.
  - destruct (findIndex p l) as [j|]; simpl; [|discriminate].
    intros [= <-]. simpl. now apply IH.
Qed.

Lemma findIndex_first_hit (p : A -> bool) (l1 l2 : list A) (x : A) :
  Forall (fun y => p y = false) l1 -> p x = true ->
  findIndex p (l1 ++ x :: l2) = Some (length l1).
Proof.
  intros Hmiss Hhit. induction Hmiss as [|y l1 Hy _ IH]; simpl.
  - now rewrite Hhit.
  - now rewrite Hy, IH.
Qed.

Lemma nth_error_middle (l1 l2 : list A) (x : A) :
  nth_error (l1 ++ x :: l2) (length l1) = Some x.
Proof. induction l1; simpl; auto. Qed.

Lemma assignAt_middle (l1 l2 : list A) (x v : A) :
  assignAt (length l1) v (l1 ++ x :: l2) = l1 ++ v :: l2.
Proof. induction l1 as [|y l1 IH]; simpl; [reflexivity | now rewrite IH]. Qed.


End ArrayFacts.

Section ArrayMore.
Context {A : Type}.

Lemma nth_error_assignAt_other (l : list A) (i j : nat) (v : A) :
  i <> j -> nth_error (assignAt j v l) i = nth_error l i.
Proof.
  revert i j. induction l as [|y l IH]; intros i j Hij; simpl; [reflexivity|].
  destruct j, i; simpl; try reflexivity; try lia. apply IH. lia.
Qed.

Lemma length_assignAt (l : list A) (i : nat) (v : A) :
  length (assignAt i v l) = length l.
Proof.
  revert i. induction l as [|y l IH]; intros i; simpl; [reflexivity|].
  destruct i; simpl; [reflexivity | now rewrite IH].
Qed.

Lemma findIndex_None (p : A -> bool) (l : list A) :
  Forall (fun x => p x = false) l -> findIndex p l = None.
Proof.
  induction 1 as [|x l Hx _ IH]; simpl; [reflexivity|]. now rewrite Hx, IH.
Qed.
End ArrayMore.


Section Merge.
Context `{Platform}.

Lemma forEach_cons {S A} (f : S -> A -> M S) (x : A) (r : list A) (s : S) (e : Env) :
  forEach (x :: r) f s e = forEach r f (fst (f s x e)) (snd (f s x e)).
Proof. simpl. now rewrite bind_run. Qed.

(** The incoming inject overwrites the first entry it matches, and takes
    over that entry's identifier. *)
Lemma mergeInject_hit (cur : MelData) (l1 l2 : list Inject) (ex u : Inject) (e : Env) :
  Forall (fun x => sameInject u x = false) l1 ->
  sameInject u ex = true ->
  mergeInject cur (l1 ++ ex :: l2) u e
  = (l1 ++ with_lastModified (Some (iso_of (clockReads e)))
             (with_melId (Some (melId cur)) (with_id (inj_id ex) u)) :: l2,
     mkEnv (uuidsDrawn e) (S (clockReads e))).
Proof.
  intros Hmiss Hhit. unfold mergeInject.
  rewrite (findIndex_first_hit _ l1 l2 ex Hmiss Hhit), bind_run. simpl.
  now rewrite nth_error_middle, assignAt_middle.
Qed.





Lemma mergeMelUpdates_shorter (cur : MelData) (incoming : list Inject) (e : Env) :
  length incoming < length (injects cur) ->
  let r := forEach incoming (mergeInject cur) (injects cur) e in
  mergeMelUpdates (Some cur) incoming e = updateMelVersion cur (fst r) (snd r).
Proof.
  intros Hlen r. unfold mergeMelUpdates.
  apply Nat.ltb_lt in Hlen. rewrite Hlen. now rewrite bind_run.
Qed.
End Merge.

(** C1 (amended).  Take a document whose injects are numbered 1..5 and merge
    into it a single inject numbered 3 whose identifier is strictly equal to
    that of neither inject 1 nor inject 2 (two absent identifiers are equal).
    In the result, injects 1, 2, 4 and 5 agree with what they were in every
    field but the last-modified time; inject 3 has the incoming fields, hence
    the incoming message body, the identifier of the existing inject 3, and
    the document as owner (which is the owner inject 3 had, if it was owned
    by the document).  Every inject of the result, 1, 2, 4 and 5 included,
    carries the new timestamp of the document as last-modified time. *)
Theorem merge_by_number_targets_one `{Platform} (cur : MelData)
    (e1 e2 e3 e4 e5 u : Inject) (e : Env) :
  injects cur = [e1; e2; e3; e4; e5] ->
  map inj_Number [e1; e2; e3; e4; e5]
    = map (fun z => Some (NumOfNumber z)) [1; 2; 3; 4; 5]%Z ->
  inj_Number u = Some (NumOfNumber 3) ->
  inj_id e1 <> inj_id u ->
  inj_id e2 <> inj_id u ->
  let doc := fst (mergeMelUpdates (Some cur) [u] e) in
  let stamp := with_lastModified (Some (timestamp doc)) in
  let m3 := stamp (with_melId (Some (melId cur)) (with_id (inj_id e3) u)) in
  injects doc = [stamp e1; stamp e2; m3; stamp e4; stamp e5]
  /\ (exists d1 d2 d3 d4 d5,
         injects doc = [d1; d2; d3; d4; d5]
         /\ sameButLastModified d1 e1 /\ sameButLastModified d2 e2
         /\ sameButLastModified d4 e4 /\ sameButLastModified d5 e5
         /\ sameIncomingFields d3 u
         /\ inj_Message d3 = inj_Message u
         /\ inj_id d3 = inj_id e3
         /\ inj_melId d3 = Some (melId doc)
         /\ (inj_melId e3 = Some (melId cur) -> inj_melId d3 = inj_melId e3))
  /\ Forall (fun d => inj_lastModified d = Some (timestamp doc)) (injects doc)
  /\ timestamp doc = iso_of (S (clockReads e))
  /\ melId doc = melId cur.
Proof.
  intros Hinj Hnum Hu I1 I2 doc stamp m3.
  injection Hnum as N1 N2 N3 N4 N5.
  assert (forall x, inj_id x <> inj_id u -> inj_Number x <> inj_Number u ->
                    sameInject u x = false) as Hmiss.
  { intros x Hi Hn. unfold sameInject.
    apply str_opt_eqb_neq in Hi. rewrite Hi. simpl.
    destruct (inj_Number x) as [a|], (inj_Number u) as [b|]; simpl;
      try reflexivity; try congruence.
    destruct a, b; simpl; try reflexivity.
    - apply Z.eqb_neq. congruence.
    - apply String.eqb_neq. congruence. }
  assert (sameInject u e3 = true) as Hhit.
  { unfold sameInject. rewrite N3, Hu. simpl. apply orb_true_r. }
  assert (Forall (fun x => sameInject u x = false) [e1; e2]) as Hfirst.
  { repeat constructor; apply Hmiss; try assumption;
      rewrite Hu; [rewrite N1 | rewrite N2]; discriminate. }
  assert (doc = fst (updateMelVersion cur
                       ([e1; e2] ++ with_lastModified (Some (iso_of (clockReads e)))
                            (with_melId (Some (melId cur)) (with_id (inj_id e3) u))
                          :: [e4; e5])
                       (mkEnv (uuidsDrawn e) (S (clockReads e))))) as Hdoc.
  { unfold doc. rewrite mergeMelUpdates_shorter by (rewrite Hinj; simpl; lia).
    rewrite Hinj, forEach_cons.
    change [e1; e2; e3; e4; e5] with ([e1; e2] ++ e3 :: [e4; e5]).
    rewrite (mergeInject_hit cur [e1; e2] [e4; e5] e3 u e Hfirst Hhit).
    reflexivity. }
  assert (melId doc = melId cur) as Hmel by (rewrite Hdoc, updateMelVersion_run; reflexivity).
  assert (injects doc = [stamp e1; stamp e2; m3; stamp e4; stamp e5]) as Hres
    by (unfold m3, stamp; rewrite Hdoc, updateMelVersion_run; reflexivity).
  split; [exact Hres|]. split; [|split; [|split]].
  - exists (stamp e1), (stamp e2), m3, (stamp e4), (stamp e5).
    split; [exact Hres|].
    repeat (split; [apply sameButLastModified_stamp|]).
    split; [unfold sameIncomingFields; simpl; repeat split|].
    split; [reflexivity|]. split; [reflexivity|].
    split; [unfold m3; simpl; now rewrite Hmel|].
    intros ->. reflexivity.
  - rewrite Hres. repeat constructor.
  - rewrite Hdoc, updateMelVersion_run. reflexivity.
  - exact Hmel.
Qed.

Lemma merge_by_number_targets_one_witness :
  map inj_Number (injects (fst Sample.built))
    = map (fun z => Some (NumOfNumber z)) [1; 2; 3; 4; 5]%Z
  /\ inj_Number Sample.changed3 = Some (NumOfNumber 3)
  /\ map inj_id (injects (fst Sample.merged3)) = map inj_id (injects (fst Sample.built))
  /\ melId (fst Sample.merged3) = melId (fst Sample.built).
Proof.
  assert (map inj_Number (injects (fst Sample.built))
          = map (fun z => Some (NumOfNumber z)) [1; 2; 3; 4; 5]%Z) as H1 by reflexivity.
  assert (inj_Number Sample.changed3 = Some (NumOfNumber 3)) as H2 by reflexivity.
  destruct (@merge_by_number_targets_one Sample.clockwork (fst Sample.built)
              _ _ _ _ _ Sample.changed3 (snd Sample.built) eq_refl H1 H2)
    as (Hinj & _ & _ & _ & Hmel).
  - vm_compute. discriminate.
  - vm_compute. discriminate.
  - split; [exact H1|]. split; [exact H2|].
    split; [exact (f_equal (map inj_id) Hinj) | exact Hmel].
Defined.

(** C1 as stated fails, twice.  On the document built from five injects,
    merging the revised inject 3 re-stamps the last-modified time of injects
    1, 2, 4 and 5, so they are not what they were.  And on the same document
    after a replacement by injects without identifier (still numbered 1..5),
    the revised inject 3, which has no identifier either, lands on inject 1:
    inject 1 takes its message and number, inject 3 keeps the old message. *)
Lemma merge_by_number_restamps_others :
  (map inj_Number (injects (fst Sample.built))
     = map (fun z => Some (NumOfNumber z)) [1; 2; 3; 4; 5]%Z
   /\ inj_Number Sample.changed3 = Some (NumOfNumber 3)
   /\ ~ (forall i, In i [0; 1; 3; 4] ->
           nth_error (injects (fst Sample.merged3)) i
           = nth_error (injects (fst Sample.built)) i))
  /\ (map inj_Number (injects (fst Scenario.replacedAll))
        = map (fun z => Some (NumOfNumber z)) [1; 2; 3; 4; 5]%Z
      /\ map inj_Message (injects (fst Scenario.replacedAll))
         = [Some "one"; Some "two"; Some "three"; Some "four"; Some "five"]%string
      /\ map inj_Message (injects (fst Scenario.merged3IntoReplaced))
         = [Some "three, revised"; Some "two"; Some "three"; Some "four";
            Some "five"]%string
      /\ map inj_Number (injects (fst Scenario.merged3IntoReplaced))
         = map (fun z => Some (NumOfNumber z)) [3; 2; 3; 4; 5]%Z).
Proof.
  split.
  - split; [reflexivity|]. split; [reflexivity|].
    intros Hsame. specialize (Hsame 0 (or_introl eq_refl)).
    vm_compute in Hsame. discriminate Hsame.
  - repeat split.
Qed.

Example merge_by_number_stamps :
  map inj_lastModified (injects (fst Sample.built))
    = repeat (Some "2025-01-01T00:00:00Z"%string) 5
  /\ map inj_lastModified (injects (fst Sample.merged3))
    = repeat (Some "2025-01-01T00:00:02Z"%string) 5.
Proof. split; reflexivity. Qed.

(* ================================================================== *)
(** ** Identifiers and ownership across operations *)

Section Ownership.
Context `{Platform}.





End Ownership.

Section MergeOwnership.
Context `{Platform}.



End MergeOwnership.




(* ================================================================== *)
(** ** Round trip *)

Lemma createMelVersion_self_summary `{Platform} (l : list Inject)
      (mid : option string) (e : Env) :
  let doc := fst (createMelVersion l mid e) in
  eventSummary (events doc) = countsInOrder (map inj_Serial (injects doc))
  /\ totalInjects doc = length (injects doc).
Proof.
  intros doc. unfold doc. rewrite createMelVersion_run. simpl.
  now rewrite extractEvents_summary.
Qed.

(** C8 (amended).  Sending the inject list of a freshly built document back
    in replace mode (any action but ["merge"]).  When the list is not empty,
    nothing changes in the content: the document identifier, the inject
    count, every field of every inject but the last-modified time, and the
    names and counts of the events are the same; what differs is the version
    (now 2), the timestamps, and the synthetic identifiers of the events,
    which are drawn anew.  When the list is empty, replace mode does not
    replace: it builds a new document from no inject, version 1 again, under
    a document identifier of its own. *)
Theorem roundtrip_same_content `{Platform} (l : list Inject) (mid : option string)
    (action : string) (e e' : Env) :
  action <> "merge"%string ->
  let built := fst (createMelVersion l mid e) in
  let again := fst (applyInjects (Some built) (injects built) action e') in
  (l <> [] ->
   sameContent built again
   /\ Forall2 sameButLastModified (injects again) (injects built)
   /\ version again = 2%Z
   /\ injects again = map (with_lastModified (Some (timestamp again))) (injects built))
  /\ (l = [] ->
      applyInjects (Some built) (injects built) action e'
        = createMelVersion [] None e'
      /\ version again = 1%Z
      /\ injects again = []
      /\ melId again = uuid_of (uuidsDrawn e')).
Proof.
  intros Hact built again. split.
  - intros Hl.
    assert (injects built <> []) as Hne.
    { intros Hnil. apply (f_equal (@length _)) in Hnil.
      unfold built in Hnil. rewrite createMelVersion_run in Hnil. simpl in Hnil.
      rewrite mapFrom_length in Hnil. destruct l; [contradiction | discriminate]. }
    unfold again. rewrite (applyInjects_replace built (injects built) action e' Hne Hact).
    destruct (updateMelVersion_spec built (injects built) e')
      as (Hinj & Hun & _ & Htot & Hver & Hmel & Hev).
    destruct (updateMelVersion_stamps built (injects built) e') as (Hsame & _).
    destruct (createMelVersion_self_summary l mid e) as (Hev0 & Htot0).
    fold built in Hev0, Htot0.
    split; [|split; [exact Hsame|split; [|exact Hinj]]].
    + unfold sameContent. repeat split.
      * now rewrite Hmel.
      * now rewrite Htot, Htot0.
      * now rewrite Hev, Hev0.
      * now rewrite Hun.
    + rewrite Hver. unfold built. now rewrite createMelVersion_run.
  - intros ->.
    assert (injects built = []) as Hnil
      by (unfold built; now rewrite createMelVersion_run).
    assert (applyInjects (Some built) (injects built) action e'
            = createMelVersion [] None e') as Heq
      by (unfold applyInjects; now rewrite Hnil).
    unfold again. rewrite Heq. split; [reflexivity|].
    rewrite createMelVersion_run. now repeat split.
Qed.

Lemma roundtrip_same_content_witness :
  "replace"%string <> "merge"%string
  /\ Sample.five <> []
  /\ sameContent (fst Sample.built) (fst Scenario.roundTripReplace)
  /\ version (fst Scenario.roundTripReplace) = 2%Z.
Proof.
  assert ("replace"%string <> "merge"%string) as H1 by discriminate.
  assert (Sample.five <> []) as H2 by discriminate.
  destruct (proj1 (@roundtrip_same_content Sample.clockwork Sample.five None "replace"
                     Sample.env0 (snd Sample.built) H1) H2) as (Hsame & _ & Hver & _).
  split; [exact H1|]. split; [exact H2|]. split; [exact Hsame | exact Hver].
Defined.

(** C8 as stated fails, twice.  The events of the round-tripped document
    carry new identifiers, so more than version and timestamps has changed.
    And the document built from no inject comes back from replace mode as
    another document: a new identifier, and the version it had. *)
Lemma roundtrip_renews_event_ids :
  ~ sameButVersionAndTime (fst Sample.built) (fst Scenario.roundTripReplace)
  /\ events (fst Sample.built) <> events (fst Scenario.roundTripReplace)
  /\ ~ sameButVersionAndTime (fst Scenario.builtEmpty) (fst Scenario.roundTripEmpty)
  /\ melId (fst Scenario.builtEmpty) <> melId (fst Scenario.roundTripEmpty)
  /\ version (fst Scenario.roundTripEmpty) = version (fst Scenario.builtEmpty).
Proof.
  split; [|split; [|split; [|split]]].
  - intros (_ & _ & Hev & _). vm_compute in Hev. discriminate Hev.
  - vm_compute. discriminate.
  - intros (Hmel & _). vm_compute in Hmel. discriminate Hmel.
  - vm_compute. discriminate.
  - reflexivity.
Qed.

Example roundtrip_event_ids :
  map ev_id (events (fst Sample.built)) = ["uuid-6"; "uuid-7"; "uuid-8"]%string
  /\ map ev_id (events (fst Sample.roundTrip)) = ["uuid-9"; "uuid-10"; "uuid-11"]%string.
Proof. split; reflexivity. Qed.

(* ================================================================== *)
(** ** Document edits over HTTP: [PUT] *)

Section Put.
Context `{Platform}.

(** A rejected [PUT] changes nothing, whatever the reason. *)
Lemma PUT_rejected_unchanged (request : option Chat.PutRequest) (w : World) (e : Env) :
  status (fst (fst (Chat.PUT request w e))) <> 200 ->
  Chat.PUT request w e = (fst (fst (Chat.PUT request w e)), w, e).
Proof.
  unfold Chat.PUT.
  destruct request as [req|]; [|reflexivity].
  destruct (Chat.put_sessionId req) as [sid|]; [|reflexivity].
  destruct (sid =? "")%string; [reflexivity|].
  destruct (Map_get String.eqb (chatSessions w) sid) as [session|]; [|reflexivity].
  destruct (Chat.put_action req) as [action|]; [|reflexivity].
  destruct (Chat.put_injects req) as [inj|]; [|reflexivity].
  destruct (action =? "updateInjects")%string; [|reflexivity].
  destruct (currentMel session) as [mel|]; [|reflexivity].
  destruct (negb (str_opt_eqb (Some (melId mel)) (Chat.put_melId req)));
    [reflexivity|].
  rewrite !bind_run. simpl. intros Hst. now contradiction Hst.
Qed.

(** A request that is not a well-formed edit is malformed input: 400. *)
Lemma PUT_without_injects (req : Chat.PutRequest) (sid : string)
      (session : Session) (w : World) (e : Env) :
  Chat.put_sessionId req = Some sid -> sid <> ""%string ->
  Map_get String.eqb (chatSessions w) sid = Some session ->
  Chat.put_injects req = None ->
  Chat.PUT (Some req) w e
  = (mkResponse 400 (ErrorBody "Invalid action or missing data"), w, e).
Proof.
  intros Hsid Hne Hget Hinj. unfold Chat.PUT.
  apply String.eqb_neq in Hne. rewrite Hsid, Hne, Hget, Hinj.
  now destruct (Chat.put_action req).
Qed.
End Put.

(** C9.  An edit request ([PUT] with a session identifier of a known
    session, action ["updateInjects"] and an inject list) whose document
    identifier is not the one of the session's current document is answered
    with 404, which is not the 400 of malformed input, and the session store,
    hence the session's current document, history and messages, is what it
    was; not even the clock is read. *)
Theorem PUT_mismatch_not_found `{Platform} (req : Chat.PutRequest) (sid : string)
    (session : Session) (mel : MelData) (edited : list Inject) (w : World) (e : Env) :
  Chat.put_sessionId req = Some sid ->
  sid <> ""%string ->
  Map_get String.eqb (chatSessions w) sid = Some session ->
  Chat.put_action req = Some "updateInjects"%string ->
  Chat.put_injects req = Some edited ->
  currentMel session = Some mel ->
  Chat.put_melId req <> Some (melId mel) ->
  Chat.PUT (Some req) w e
    = (mkResponse 404 (ErrorBody "MEL not found or ID mismatch"), w, e)
  /\ status (fst (fst (Chat.PUT (Some req) w e))) <> 400
  /\ Map_get String.eqb (chatSessions (snd (fst (Chat.PUT (Some req) w e)))) sid
     = Some session.
Proof.
  intros Hsid Hne Hget Hact Hinj Hcur Hmis.
  assert (Chat.PUT (Some req) w e
          = (mkResponse 404 (ErrorBody "MEL not found or ID mismatch"), w, e)) as Hput.
  { assert (str_opt_eqb (Some (melId mel)) (Chat.put_melId req) = false) as Hneq
      by (apply str_opt_eqb_neq; congruence).
    unfold Chat.PUT. apply String.eqb_neq in Hne.
    rewrite Hsid, Hne, Hget, Hact, Hinj, String.eqb_refl, Hcur, Hneq.
    reflexivity. }
  rewrite Hput. simpl. repeat split; [discriminate | exact Hget].
Qed.

Lemma PUT_mismatch_not_found_witness :
  Map_get String.eqb (chatSessions Sample.world1) "session_1" = Some Sample.session1
  /\ Chat.put_melId Sample.staleEdit <> Some (melId (fst Sample.built))
  /\ @Chat.PUT Sample.clockwork (Some Sample.staleEdit) Sample.world1 (snd Sample.built)
     = (mkResponse 404 (ErrorBody "MEL not found or ID mismatch"),
        Sample.world1, snd Sample.built).
Proof.
  assert (Map_get String.eqb (chatSessions Sample.world1) "session_1"
          = Some Sample.session1) as H1 by reflexivity.
  assert (Chat.put_melId Sample.staleEdit <> Some (melId (fst Sample.built))) as H2
    by (vm_compute; discriminate).
  assert ("session_1"%string <> ""%string) as H3 by discriminate.
  split; [exact H1|]. split; [exact H2|].
  exact (proj1 (@PUT_mismatch_not_found Sample.clockwork Sample.staleEdit "session_1"
                  Sample.session1 (fst Sample.built) [Sample.changed3] Sample.world1
                  (snd Sample.built) eq_refl H3 H1 eq_refl eq_refl eq_refl H2)).
Defined.

(* ================================================================== *)
(** ** The two session stores *)

Section Stores.
Context `{Platform}.

Lemma Chat_PUT_frame (request : option Chat.PutRequest) (w : World) (e : Env) :
  savedSessions (snd (fst (Chat.PUT request w e))) = savedSessions w.
Proof.
  unfold Chat.PUT.
  repeat match goal with
         | |- context [match ?x with _ => _ end] => destruct x
         end;
    rewrite ?bind_run; reflexivity.
Qed.

Lemma Chat_POST_frame (request : option Chat.PostRequest) (envKey : option string)
      (upstream : Chat.Upstream) (w : World) (e : Env) :
  savedSessions (snd (fst (Chat.POST request envKey upstream w e))) = savedSessions w.
Proof.
  unfold Chat.POST.
  destruct request as [req|]; [|reflexivity].
  destruct (falsy (Chat.post_apiKey req) && falsy envKey); [reflexivity|].
  rewrite !bind_run.
  destruct upstream as [| st err | out]; try reflexivity.
  rewrite bind_run.
  match goal with
  | |- context [let '(_, _) := fst ?r in _] => destruct (fst r) as [melData session2]
  end.
  rewrite bind_run. reflexivity.
Qed.

Lemma Sessions_POST_frame (request : option Sessions.PostRequest) (w : World) (e : Env) :
  chatSessions (snd (fst (Sessions.POST request w e))) = chatSessions w.
Proof.
  unfold Sessions.POST.
  destruct request as [req|]; [|reflexivity].
  destruct (truthy (Sessions.post_sessionId req)); [|reflexivity].
  destruct (Sessions.post_sessionId req); [|reflexivity].
  rewrite !bind_run. reflexivity.
Qed.

Lemma Sessions_DELETE_frame (sessionId : option string) (w : World) :
  chatSessions (snd (Sessions.DELETE sessionId w)) = chatSessions w.
Proof.
  unfold Sessions.DELETE.
  destruct (truthy sessionId); [|reflexivity].
  destruct sessionId; reflexivity.
Qed.

Lemma Sessions_GET_reads_saved (sessionId : option string) (w w' : World) (e : Env) :
  savedSessions w = savedSessions w' ->
  Sessions.GET sessionId w e = Sessions.GET sessionId w' e.
Proof. unfold Sessions.GET. now intros ->. Qed.

Lemma Chat_GET_reads_chat (sessionId : option string) (w w' : World) :
  chatSessions w = chatSessions w' -> Chat.GET sessionId w = Chat.GET sessionId w'.
Proof. unfold Chat.GET. now intros ->. Qed.
End Stores.

(** C10.  The chat endpoint and the sessions endpoint keep separate session
    maps.  Saving or deleting on the sessions endpoint leaves the chat map as
    it is, and a chat turn or a document edit leaves the saved map as it is;
    each endpoint's reads depend on its own map only.  So what the sessions
    endpoint answers is the same after any chat turn (a session the turn
    created is not listed and is not found there), and what the chat
    endpoint answers about a session (messages, current document, history)
    is the same after any save or delete. *)
Theorem session_stores_are_separate `{Platform} :
  (forall req w e, chatSessions (snd (fst (Sessions.POST req w e))) = chatSessions w)
  /\ (forall sid w, chatSessions (snd (Sessions.DELETE sid w)) = chatSessions w)
  /\ (forall req key up w e,
         savedSessions (snd (fst (Chat.POST req key up w e))) = savedSessions w)
  /\ (forall req w e, savedSessions (snd (fst (Chat.PUT req w e))) = savedSessions w)
  /\ (forall req key up w e sid e',
         Sessions.GET sid (snd (fst (Chat.POST req key up w e))) e'
         = Sessions.GET sid w e')
  /\ (forall req w e sid e',
         Sessions.GET sid (snd (fst (Chat.PUT req w e))) e' = Sessions.GET sid w e')
  /\ (forall req w e sid,
         Chat.GET sid (snd (fst (Sessions.POST req w e))) = Chat.GET sid w)
  /\ (forall sid' w sid,
         Chat.GET sid (snd (Sessions.DELETE sid' w)) = Chat.GET sid w).
Proof.
  repeat split; intros.
  - apply Sessions_POST_frame.
  - apply Sessions_DELETE_frame.
  - apply Chat_POST_frame.
  - apply Chat_PUT_frame.
  - apply Sessions_GET_reads_saved, Chat_POST_frame.
  - apply Sessions_GET_reads_saved, Chat_PUT_frame.
  - apply Chat_GET_reads_chat, Sessions_POST_frame.
  - apply Chat_GET_reads_chat, Sessions_DELETE_frame.
Qed.

Example chat_session_not_seen_by_sessions_endpoint :
  let w := snd (fst Sample.afterFirstTurn) in
  Map_keys (chatSessions w) = ["session_1735689600000"]%string
  /\ savedSessions w = []
  /\ fst (@Sessions.GET Sample.clockwork (Some "session_1735689600000"%string) w
                        (snd Sample.afterFirstTurn))
     = mkResponse 404 (ErrorBody "Session not found")
  /\ fst (@Sessions.GET Sample.clockwork None w (snd Sample.afterFirstTurn))
     = mkResponse 200 (SavedList []).
Proof. repeat split. Qed.

Example save_and_delete_leave_chat_session :
  let saved := @Sessions.POST Sample.clockwork (Some Sample.saveRequest)
                              Sample.world1 Sample.env0 in
  let deleted := Sessions.DELETE (Some "session_1"%string) (snd (fst saved)) in
  Map_keys (savedSessions (snd (fst saved))) = ["session_1"]%string
  /\ savedSessions (snd deleted) = []
  /\ Chat.GET (Some "session_1"%string) (snd deleted)
     = mkResponse 200 (SessionBody Sample.session1).
Proof. repeat split. Qed.

(* ================================================================== *)
(** * Further properties of the code *)

From Stdlib Require DecimalNat.

(** ** Event aggregator: totals and effects *)

Lemma bump_total (k : option string) (l : list (option string * nat)) :
  NoDup (map fst l) -> In k (map fst l) ->
  list_sum (map snd (map (bump k) l)) = S (list_sum (map snd l)).
Proof.
  induction l as [|[k' c] l IH]; simpl; intros Hnd Hin; [contradiction|].
  inversion Hnd as [|? ? Hnotin Hnd']; subst.
  destruct (opt_string_dec k' k) as [->|Hne].
  - now rewrite bump_other.
  - destruct Hin as [?|Hin]; [contradiction|]. rewrite IH by assumption. lia.
Qed.

Lemma countsInOrder_keys (keys : list (option string)) :
  map fst (countsInOrder keys) = first_seen keys.
Proof.
  unfold countsInOrder. rewrite map_map. simpl. apply map_id.
Qed.

Lemma countsInOrder_total (keys : list (option string)) :
  list_sum (map snd (countsInOrder keys)) = length keys.
Proof.
  induction keys as [|k keys IH] using rev_ind; [reflexivity|].
  rewrite countsInOrder_snoc, length_app. simpl.
  destruct (in_dec opt_string_dec k keys) as [Hin|Hout].
  - rewrite bump_total, IH; [lia | |].
    + rewrite countsInOrder_keys. apply first_seen_NoDup.
    + rewrite countsInOrder_keys. now apply first_seen_In.
  - rewrite map_app, list_sum_app, IH. simpl. lia.
Qed.

Lemma countsInOrder_positive (keys : list (option string)) :
  Forall (fun kc => 1 <= snd kc) (countsInOrder keys).
Proof.
  unfold countsInOrder. apply Forall_forall. intros kc Hkc.
  apply in_map_iff in Hkc. destruct Hkc as (k & <- & Hk). simpl.
  apply (proj1 (first_seen_In _ _)) in Hk.
  apply (proj1 (count_occ_In opt_string_dec keys k)) in Hk. unfold sharing. lia.
Qed.

(** No event is empty, and the counts of all events add up to the number of
    injects. *)
Theorem extractEvents_counts `{Platform} (l : list Inject) (e : Env) :
  let evs := fst (extractEventsFromInjects l e) in
  Forall (fun ev => 1 <= ev_injectCount ev) evs
  /\ list_sum (map ev_injectCount evs) = length l.
Proof.
  intros evs. pose proof (extractEvents_summary l e) as Hsum. fold evs in Hsum.
  split.
  - pose proof (countsInOrder_positive (map inj_Serial l)) as Hpos.
    rewrite <- Hsum in Hpos. unfold eventSummary in Hpos.
    rewrite Forall_map in Hpos. exact Hpos.
  - replace (map ev_injectCount evs) with (map snd (eventSummary evs))
      by (unfold eventSummary; rewrite map_map; reflexivity).
    now rewrite Hsum, countsInOrder_total, length_map.
Qed.

Section AggregatorEffects.
Context `{Platform}.

Lemma countInject_run (m : EventMap) (inject : Inject) (e : Env) :
  countInject m inject e =
  match Map_get str_opt_eqb m (inj_Serial inject) with
  | Some ev =>
      (Map_set str_opt_eqb m (inj_Serial inject)
         (mkEvent (ev_id ev) (ev_name ev) (S (ev_injectCount ev))), e)
  | None =>
      (m ++ [(inj_Serial inject, mkEvent (uuid_of (uuidsDrawn e)) (inj_Serial inject) 1)],
       mkEnv (S (uuidsDrawn e)) (clockReads e))
  end.
Proof.
  unfold countInject, Map_has. rewrite bind_run.
  destruct (Map_get str_opt_eqb m (inj_Serial inject)) as [ev|] eqn:Hget; simpl.
  - now rewrite Hget.
  - rewrite (Map_set_fresh str_opt_eqb m _ _ Hget).
    rewrite (Map_get_snoc str_opt_eqb str_opt_eqb_eq m _ _ Hget).
    now rewrite (Map_set_snoc str_opt_eqb str_opt_eqb_eq m _ _ _ Hget).
Qed.

Lemma Map_set_same_id (m : EventMap) (k : option string) (ev ev' : Event) :
  Map_get str_opt_eqb m k = Some ev -> ev_id ev' = ev_id ev ->
  map (fun kv => ev_id (snd kv)) (Map_set str_opt_eqb m k ev')
  = map (fun kv => ev_id (snd kv)) m.
Proof.
  induction m as [|[k' w] m IH]; simpl; [discriminate|].
  destruct (str_opt_eqb k' k); simpl.
  - intros [= ->] ->. reflexivity.
  - intros Hget Hid. now rewrite IH.
Qed.

Lemma forEach_countInject_effects (l : list Inject) (e : Env) :
  let r := forEach l countInject [] e in
  map (fun kv => ev_id (snd kv)) (fst r)
    = map uuid_of (seq (uuidsDrawn e) (length (fst r)))
  /\ uuidsDrawn (snd r) = uuidsDrawn e + length (fst r)
  /\ clockReads (snd r) = clockReads e.
Proof.
  induction l as [|x l IH] using rev_ind; simpl.
  - repeat split. lia.
  - rewrite forEach_snoc. destruct IH as (Hids & Hn & Hc).
    set (m := fst (forEach l countInject [] e)) in *.
    set (e1 := snd (forEach l countInject [] e)) in *.
    rewrite countInject_run.
    destruct (Map_get str_opt_eqb m (inj_Serial x)) as [ev|] eqn:Hget; simpl.
    + set (ev' := mkEvent (ev_id ev) (ev_name ev) (S (ev_injectCount ev))).
      pose proof (Map_set_same_id m _ ev ev' Hget eq_refl) as Hsame.
      assert (length (Map_set str_opt_eqb m (inj_Serial x) ev') = length m) as Hlen.
      { apply (f_equal (@length _)) in Hsame. now rewrite !length_map in Hsame. }
      rewrite Hsame, Hlen. now repeat split.
    + rewrite map_app, length_app, Hids. simpl.
      rewrite Nat.add_1_r, seq_S, map_app. simpl. rewrite Hn.
      split; [reflexivity|]. split; [lia | exact Hc].
Qed.
End AggregatorEffects.

(** The aggregator draws one UUID per event, in the order of the events,
    and never reads the clock. *)
Theorem extractEvents_effects `{Platform} (l : list Inject) (e : Env) :
  let r := extractEventsFromInjects l e in
  map ev_id (fst r) = map uuid_of (seq (uuidsDrawn e) (length (fst r)))
  /\ uuidsDrawn (snd r) = uuidsDrawn e + length (fst r)
  /\ clockReads (snd r) = clockReads e.
Proof.
  intros r. unfold r, extractEventsFromInjects. rewrite bind_run. simpl.
  destruct (forEach_countInject_effects l e) as (Hids & Hn & Hc).
  unfold Map_values. rewrite map_map, length_map. now repeat split.
Qed.

(* ================================================================== *)
(** ** Document builder: bookkeeping and fresh identifiers *)

Section MapFromIndexed.
Context {A B C : Type} (f : A -> nat -> M B).

(** A projection the callback derives from the index alone. *)
Lemma mapFrom_indexed (g : B -> C) (h : nat -> C)
      (Hf : forall x i e, g (fst (f x i e)) = h i) (l : list A) (i : nat) (e : Env) :
  map g (fst (mapFrom f l i e)) = map h (seq i (length l)).
Proof.
  revert i e. induction l as [|x l IH]; intros i e; simpl; [reflexivity|].
  rewrite !bind_run. simpl. now rewrite IH, Hf.
Qed.
End MapFromIndexed.

Section BuilderMore.
Context `{Platform}.

Lemma orRandomUUID_falsy (o : option string) (e : Env) :
  truthy o = false ->
  orRandomUUID o e = (uuid_of (uuidsDrawn e), mkEnv (S (uuidsDrawn e)) (clockReads e)).
Proof.
  destruct o as [s|]; simpl; [|reflexivity].
  destruct (s =? "")%string; [reflexivity | discriminate].
Qed.

Lemma stampNew_fresh cid ts x i e :
  truthy (inj_id x) = false ->
  inj_id (fst (stampNew cid ts x i e)) = Some (uuid_of (uuidsDrawn e))
  /\ snd (stampNew cid ts x i e) = mkEnv (S (uuidsDrawn e)) (clockReads e).
Proof.
  intros Hf. unfold stampNew. rewrite bind_run, (orRandomUUID_falsy _ _ Hf).
  split; reflexivity.
Qed.

Lemma mapFrom_stampNew_fresh cid ts (l : list Inject) (i : nat) (e : Env) :
  Forall (fun x => truthy (inj_id x) = false) l ->
  map inj_id (fst (mapFrom (stampNew cid ts) l i e))
  = map (fun j => Some (uuid_of j)) (seq (uuidsDrawn e) (length l)).
Proof.
  intros Hl. revert i e. induction Hl as [|x l Hx _ IH]; intros i e; simpl;
    [reflexivity|].
  rewrite !bind_run. simpl.
  destruct (stampNew_fresh cid ts x i e Hx) as (-> & ->).
  now rewrite IH.
Qed.

Lemma stampNew_authored cid ts x i e :
  authored (fst (stampNew cid ts x i e)) = authored x.
Proof. unfold stampNew. rewrite bind_run. reflexivity. Qed.

Lemma stampNew_originalIndex cid ts x i e :
  inj_originalIndex (fst (stampNew cid ts x i e)) = Some i.
Proof. unfold stampNew. rewrite bind_run. reflexivity. Qed.

Lemma stampNew_lastModified cid ts x i e :
  inj_lastModified (fst (stampNew cid ts x i e)) = Some ts.
Proof. unfold stampNew. rewrite bind_run. reflexivity. Qed.

Lemma stampNew_has_id cid ts x i e :
  inj_id (fst (stampNew cid ts x i e)) <> None.
Proof. unfold stampNew. rewrite bind_run. discriminate. Qed.
End BuilderMore.

(** The builder changes nothing but the four bookkeeping fields: what was
    authored is kept, every inject leaves with an identifier, its position in
    the input as original index, and the document's timestamp as
    last-modified time; a non-empty document identifier passed in is used. *)
Theorem createMelVersion_bookkeeping `{Platform} (l : list Inject)
    (mid : option string) (e : Env) :
  let doc := fst (createMelVersion l mid e) in
  map authored (injects doc) = map authored l
  /\ map inj_originalIndex (injects doc) = map Some (seq 0 (length l))
  /\ Forall (fun i => inj_lastModified i = Some (timestamp doc)) (injects doc)
  /\ Forall (fun i => inj_id i <> None) (injects doc)
  /\ (truthy mid = true -> Some (melId doc) = mid).
Proof.
  intros doc. unfold doc. rewrite createMelVersion_run. simpl.
  split; [|split; [|split; [|split]]].
  - apply mapFrom_preserves. intros x i e'. apply stampNew_authored.
  - apply mapFrom_indexed. intros x i e'. apply stampNew_originalIndex.
  - apply mapFrom_Forall. intros x i e'. apply stampNew_lastModified.
  - apply mapFrom_Forall. intros x i e'. apply stampNew_has_id.
  - apply orRandomUUID_truthy.
Qed.

Lemma NoDup_map_injective {A B} (f : A -> B) (l : list A) :
  (forall a b, f a = f b -> a = b) -> NoDup l -> NoDup (map f l).
Proof.
  intros Hinj Hl. induction Hl as [|x l Hx _ IH]; simpl; constructor; [|exact IH].
  intros Hin. apply in_map_iff in Hin. destruct Hin as (y & Hy & Hyl).
  apply Hinj in Hy. now subst.
Qed.

(** When the UUID source never repeats and no incoming inject brings an
    identifier of its own, the identifiers the builder assigns are pairwise
    different, and none of them is the identifier it mints for the document. *)
Theorem createMelVersion_fresh_ids_unique `{Platform} (l : list Inject) (e : Env) :
  (forall a b, uuid_of a = uuid_of b -> a = b) ->
  Forall (fun x => truthy (inj_id x) = false) l ->
  let doc := fst (createMelVersion l None e) in
  NoDup (map inj_id (injects doc))
  /\ ~ In (Some (melId doc)) (map inj_id (injects doc)).
Proof.
  intros Hinj Hl doc. unfold doc. rewrite createMelVersion_run. simpl.
  rewrite (mapFrom_stampNew_fresh _ _ l 0 _ Hl). simpl. split.
  - apply NoDup_map_injective; [|apply seq_NoDup].
    intros a b [= Hab]. now apply Hinj.
  - intros Hin. apply in_map_iff in Hin. destruct Hin as (j & [= Hj] & Hjin).
    apply Hinj in Hj. apply in_seq in Hjin. lia.
Qed.

Lemma string_of_nat_injective (a b : nat) : string_of_nat a = string_of_nat b -> a = b.
Proof.
  assert (forall n, Nat.to_uint n <> Decimal.Nil) as Hnil.
  { intros n Hn. pose proof (DecimalNat.Unsigned.of_to n) as Hof.
    rewrite Hn in Hof. simpl in Hof. subst n. discriminate Hn. }
  unfold string_of_nat. intros Heq.
  apply (f_equal NilZero.uint_of_string) in Heq.
  rewrite !NilZero.usu in Heq by apply Hnil.
  injection Heq as Heq. now apply DecimalNat.Unsigned.to_uint_inj.
Qed.

Lemma clockwork_uuid_injective (a b : nat) :
  @uuid_of Sample.clockwork a = @uuid_of Sample.clockwork b -> a = b.
Proof.
  simpl. intros [= Heq]. now apply string_of_nat_injective.
Qed.

Lemma createMelVersion_fresh_ids_unique_witness :
  Forall (fun x => truthy (inj_id x) = false) Sample.five
  /\ NoDup (map inj_id (injects (fst Sample.built))).
Proof.
  assert (Forall (fun x => truthy (inj_id x) = false) Sample.five) as H1
    by (repeat constructor).
  split; [exact H1|].
  exact (proj1 (@createMelVersion_fresh_ids_unique Sample.clockwork Sample.five
                  Sample.env0 clockwork_uuid_injective H1)).
Defined.

(** Identifiers that come with the injects are kept as they are, so two
    injects that come with the same identifier leave with the same one. *)
Example createMelVersion_keeps_clashing_ids :
  map inj_id
      (injects (fst (@createMelVersion Sample.clockwork
                       [with_id (Some "a") Sample.changed3;
                        with_id (Some "a") Sample.changed3]%string
                       None Sample.env0)))
  = [Some "a"; Some "a"]%string.
Proof. reflexivity. Qed.

(* ================================================================== *)
(** ** Every document the merge step returns is consistent *)

Section Consistency.
Context `{Platform}.

Lemma updateMelVersion_consistent (cur : MelData) (incoming : list Inject) (e : Env) :
  let doc := fst (updateMelVersion cur incoming e) in
  totalInjects doc = length (injects doc)
  /\ eventSummary (events doc) = countsInOrder (map inj_Serial (injects doc))
  /\ Forall (fun i => inj_lastModified i = Some (timestamp doc)) (injects doc).
Proof.
  intros doc. unfold doc. rewrite updateMelVersion_run. simpl.
  rewrite length_map, extractEvents_summary, map_map. simpl.
  repeat split. apply Forall_forall. intros i Hi.
  apply in_map_iff in Hi. now destruct Hi as (x & <- & _).
Qed.

Lemma createMelVersion_consistent (l : list Inject) (mid : option string) (e : Env) :
  let doc := fst (createMelVersion l mid e) in
  totalInjects doc = length (injects doc)
  /\ eventSummary (events doc) = countsInOrder (map inj_Serial (injects doc))
  /\ Forall (fun i => inj_lastModified i = Some (timestamp doc)) (injects doc).
Proof.
  intros doc. destruct (createMelVersion_self_summary l mid e) as (Hev & Htot).
  fold doc in Hev, Htot. repeat split; try assumption.
  unfold doc. rewrite createMelVersion_run. simpl.
  apply mapFrom_Forall. intros x i e'. apply stampNew_lastModified.
Qed.

Lemma mergeMelUpdates_cases (cur : MelData) (incoming : list Inject) (e : Env) :
  exists l e', mergeMelUpdates (Some cur) incoming e = updateMelVersion cur l e'.
Proof.
  destruct (Nat.lt_ge_cases (length incoming) (length (injects cur))) as [Hlt|Hge].
  - eexists _, _. exact (mergeMelUpdates_shorter cur incoming e Hlt).
  - eexists _, _. exact (mergeMelUpdates_not_shorter cur incoming e Hge).
Qed.

Lemma applyInjects_nonempty_cases (cur : MelData) (incoming : list Inject)
      (action : string) (e : Env) :
  injects cur <> [] ->
  exists l e', applyInjects (Some cur) incoming action e = updateMelVersion cur l e'.
Proof.
  intros Hne. unfold applyInjects.
  destruct (injects cur) as [|x r] eqn:E; [contradiction|]. simpl.
  destruct (action =? "merge")%string.
  - apply mergeMelUpdates_cases.
  - now exists incoming, e.
Qed.

Lemma applyInjects_cases (existing : option MelData) (incoming : list Inject)
      (action : string) (e : Env) :
  applyInjects existing incoming action e = createMelVersion incoming None e
  \/ exists cur l e', existing = Some cur /\ injects cur <> []
                      /\ applyInjects existing incoming action e
                         = updateMelVersion cur l e'.
Proof.
  destruct existing as [cur|]; [|now left].
  destruct (injects cur) as [|x r] eqn:E.
  - left. unfold applyInjects. now rewrite E.
  - right. assert (injects cur <> []) as Hne by (rewrite E; discriminate).
    destruct (applyInjects_nonempty_cases cur incoming action e Hne) as (l & e' & Heq).
    now exists cur, l, e'.
Qed.
End Consistency.

(** Whatever the existing document, the incoming injects and the mode, the
    document a chat turn produces is consistent with itself: [totalInjects]
    is the length of its inject list, its events are the names and counts of
    its own injects, and every inject carries the document's timestamp as
    last-modified time. *)
Theorem applyInjects_consistent `{Platform} (existing : option MelData)
    (incoming : list Inject) (action : string) (e : Env) :
  let doc := fst (applyInjects existing incoming action e) in
  totalInjects doc = length (injects doc)
  /\ eventSummary (events doc) = countsInOrder (map inj_Serial (injects doc))
  /\ Forall (fun i => inj_lastModified i = Some (timestamp doc)) (injects doc).
Proof.
  intros doc. unfold doc.
  destruct (applyInjects_cases existing incoming action e)
    as [->|(cur & l & e' & _ & _ & ->)].
  - apply createMelVersion_consistent.
  - apply updateMelVersion_consistent.
Qed.

(** On a document that has injects, a chat turn with an inject array adds
    one to the version, as a double, and keeps the document identifier, in
    merge mode (partial or not) as in replace mode; the version goes up by
    exactly one when it was a safe integer. *)
Theorem applyInjects_bumps_version `{Platform} (cur : MelData)
    (incoming : list Inject) (action : string) (e : Env) :
  injects cur <> [] ->
  let doc := fst (applyInjects (Some cur) incoming action e) in
  version doc = jsAdd (version cur) 1
  /\ (isSafeInteger (version cur) = true -> version doc = (version cur + 1)%Z)
  /\ melId doc = melId cur.
Proof.
  intros Hne doc. unfold doc.
  destruct (applyInjects_nonempty_cases cur incoming action e Hne) as (l & e' & ->).
  rewrite updateMelVersion_run. cbn [version melId].
  split; [reflexivity|]. split; [apply jsAdd_safe | reflexivity].
Qed.

Lemma applyInjects_bumps_version_witness :
  injects (fst Sample.built) <> []
  /\ isSafeInteger (version (fst Sample.built)) = true
  /\ version (fst Sample.mergedSameLength) = 2%Z
  /\ melId (fst Sample.mergedSameLength) = melId (fst Sample.built).
Proof.
  assert (injects (fst Sample.built) <> []) as H1 by (vm_compute; discriminate).
  assert (isSafeInteger (version (fst Sample.built)) = true) as H2 by reflexivity.
  destruct (@applyInjects_bumps_version Sample.clockwork (fst Sample.built)
              Sample.sameLength "merge" (snd Sample.built) H1) as (_ & Hv & Hm).
  split; [exact H1|]. split; [exact H2|]. split; [exact (Hv H2) | exact Hm].
Defined.

Example applyInjects_at_2_53 :
  version (fst (@applyInjects Sample.clockwork (Some Scenario.saturated)
                  [Sample.changed3] "merge" (snd Sample.built))) = (2 ^ 53)%Z.
Proof. reflexivity. Qed.

(* ================================================================== *)
(** ** Partial merge: what stays, what is added, what is hit *)

Section MergeMore.
Context `{Platform}.

Lemma mergeInject_keeps_unaddressed (cur : MelData) (m : list Inject)
      (u x : Inject) (i : nat) (e : Env) :
  nth_error m i = Some x -> sameInject u x = false ->
  nth_error (fst (mergeInject cur m u e)) i = Some x.
Proof.
  intros Hnth Hmiss. unfold mergeInject.
  destruct (findIndex (sameInject u) m) as [j|] eqn:E.
  - apply findIndex_Some in E. destruct E as (ex & Hj & Hhit).
    rewrite bind_run. simpl.
    rewrite nth_error_assignAt_other; [exact Hnth|].
    intros ->. congruence.
  - rewrite !bind_run. simpl. rewrite nth_error_app1; [exact Hnth|].
    apply nth_error_Some. congruence.
Qed.

Lemma forEach_mergeInject_keeps_unaddressed (cur : MelData) (incoming m : list Inject)
      (x : Inject) (i : nat) (e : Env) :
  Forall (fun u => sameInject u x = false) incoming ->
  nth_error m i = Some x ->
  nth_error (fst (forEach incoming (mergeInject cur) m e)) i = Some x.
Proof.
  intros Hall. revert m e. induction Hall as [|u l Hu _ IH]; intros m e Hnth;
    [exact Hnth|].
  rewrite forEach_cons. apply IH. now apply mergeInject_keeps_unaddressed.
Qed.

Lemma mergeInject_length (cur : MelData) (m : list Inject) (u : Inject) (e : Env) :
  length m <= length (fst (mergeInject cur m u e)) <= S (length m).
Proof.
  unfold mergeInject. destruct (findIndex (sameInject u) m) as [j|].
  - rewrite bind_run. simpl. rewrite length_assignAt. lia.
  - rewrite !bind_run. simpl. rewrite length_app. simpl. lia.
Qed.

Lemma forEach_mergeInject_length (cur : MelData) (incoming m : list Inject) (e : Env) :
  length m <= length (fst (forEach incoming (mergeInject cur) m e))
           <= length m + length incoming.
Proof.
  revert m e. induction incoming as [|u l IH]; intros m e.
  - simpl. lia.
  - rewrite forEach_cons. change (length (u :: l)) with (S (length l)).
    pose proof (mergeInject_length cur m u e) as H1.
    pose proof (IH (fst (mergeInject cur m u e)) (snd (mergeInject cur m u e))) as H2.
    lia.
Qed.

Lemma mergeMelUpdates_single (cur : MelData) (u : Inject) (e : Env) :
  1 < length (injects cur) ->
  mergeMelUpdates (Some cur) [u] e
  = updateMelVersion cur (fst (mergeInject cur (injects cur) u e))
                         (snd (mergeInject cur (injects cur) u e)).
Proof.
  intros Hlen. rewrite mergeMelUpdates_shorter by exact Hlen.
  now rewrite forEach_cons.
Qed.

Lemma mergeInject_miss (cur : MelData) (m : list Inject) (u : Inject) (e : Env) :
  Forall (fun x => sameInject u x = false) m ->
  fst (mergeInject cur m u e)
  = m ++ [with_lastModified (Some (iso_of (clockReads (snd (orRandomUUID (inj_id u) e)))))
            (with_melId (Some (melId cur))
               (with_id (Some (fst (orRandomUUID (inj_id u) e))) u))].
Proof.
  intros Hmiss. unfold mergeInject. rewrite (findIndex_None _ _ Hmiss).
  rewrite !bind_run. reflexivity.
Qed.
End MergeMore.

(** The guarantee that a partial merge preserves what it is not asked to
    change: an existing inject that no incoming inject matches, by identifier
    or by number, is still at its position in the result, unchanged but for
    the last-modified time. *)
Theorem merge_keeps_unaddressed `{Platform} (cur : MelData) (incoming : list Inject)
    (x : Inject) (i : nat) (e : Env) :
  length incoming < length (injects cur) ->
  nth_error (injects cur) i = Some x ->
  Forall (fun u => sameInject u x = false) incoming ->
  let doc := fst (mergeMelUpdates (Some cur) incoming e) in
  nth_error (injects doc) i = Some (with_lastModified (Some (timestamp doc)) x).
Proof.
  intros Hlen Hnth Hmiss doc. unfold doc.
  rewrite (mergeMelUpdates_shorter cur incoming e Hlen), updateMelVersion_run. simpl.
  rewrite nth_error_map.
  now rewrite (forEach_mergeInject_keeps_unaddressed cur incoming _ x i e Hmiss Hnth).
Qed.

Lemma merge_keeps_unaddressed_witness :
  length [Sample.changed3] < length (injects (fst Sample.built))
  /\ nth_error (injects (fst Sample.built)) 0 = Some Scenario.first
  /\ Forall (fun u => sameInject u Scenario.first = false) [Sample.changed3]
  /\ nth_error (injects (fst Sample.merged3)) 0
     = Some (with_lastModified (Some (timestamp (fst Sample.merged3))) Scenario.first).
Proof.
  assert (length [Sample.changed3] < length (injects (fst Sample.built))) as H1
    by (vm_compute; lia).
  assert (nth_error (injects (fst Sample.built)) 0 = Some Scenario.first) as H2
    by reflexivity.
  assert (Forall (fun u => sameInject u Scenario.first = false) [Sample.changed3]) as H3
    by (repeat constructor).
  split; [exact H1|]. split; [exact H2|]. split; [exact H3|].
  exact (@merge_keeps_unaddressed Sample.clockwork (fst Sample.built)
           [Sample.changed3] Scenario.first 0 (snd Sample.built) H1 H2 H3).
Defined.

(** A partial merge never drops an inject and adds at most one inject per
    incoming inject. *)
Theorem merge_length_bounds `{Platform} (cur : MelData) (incoming : list Inject)
    (e : Env) :
  length incoming < length (injects cur) ->
  let doc := fst (mergeMelUpdates (Some cur) incoming e) in
  length (injects cur) <= totalInjects doc <= length (injects cur) + length incoming.
Proof.
  intros Hlen doc. unfold doc.
  rewrite (mergeMelUpdates_shorter cur incoming e Hlen), updateMelVersion_run. simpl.
  apply forEach_mergeInject_length.
Qed.

Lemma merge_length_bounds_witness :
  length [Scenario.extra6] < length (injects (fst Sample.built))
  /\ 5 <= totalInjects (fst (@mergeMelUpdates Sample.clockwork (Some (fst Sample.built))
                               [Scenario.extra6] (snd Sample.built))) <= 5 + 1.
Proof.
  assert (length [Scenario.extra6] < length (injects (fst Sample.built))) as H1
    by (vm_compute; lia).
  split; [exact H1|].
  exact (@merge_length_bounds Sample.clockwork (fst Sample.built) [Scenario.extra6]
           (snd Sample.built) H1).
Defined.

(** Merging one inject into a document of at least two: the first existing
    inject it matches, in list order, is overwritten by the incoming fields
    and keeps its identifier; everything before and after it, further
    matches included, stays as it was but for the last-modified time. *)
Theorem merge_single_overwrites_first_match `{Platform} (cur : MelData)
    (l1 l2 : list Inject) (ex u : Inject) (e : Env) :
  injects cur = l1 ++ ex :: l2 ->
  1 < length (injects cur) ->
  Forall (fun x => sameInject u x = false) l1 ->
  sameInject u ex = true ->
  let doc := fst (mergeMelUpdates (Some cur) [u] e) in
  let stamp := with_lastModified (Some (timestamp doc)) in
  injects doc
  = map stamp l1
      ++ stamp (with_melId (Some (melId cur)) (with_id (inj_id ex) u))
      :: map stamp l2.
Proof.
  intros Hinj Hlen Hmiss Hhit doc stamp. unfold stamp, doc.
  rewrite (mergeMelUpdates_single cur u e Hlen), Hinj.
  rewrite (mergeInject_hit cur l1 l2 ex u e Hmiss Hhit).
  rewrite updateMelVersion_run. simpl. now rewrite map_app.
Qed.

Lemma merge_single_overwrites_first_match_witness :
  injects (fst Scenario.replacedAll)
    = [] ++ with_lastModified (Some "2025-01-01T00:00:01Z"%string) (Sample.raw 1 "Alpha" "one")
         :: map (with_lastModified (Some "2025-01-01T00:00:01Z"%string))
                [Sample.raw 2 "Alpha" "two"; Sample.raw 3 "Bravo" "three";
                 Sample.raw 4 "Bravo" "four"; Sample.raw 5 "Charlie" "five"]
  /\ 1 < length (injects (fst Scenario.replacedAll))
  /\ map inj_Message
         (injects (fst (@mergeMelUpdates Sample.clockwork (Some (fst Scenario.replacedAll))
                          [Sample.changed3] (snd Scenario.replacedAll))))
     = [Some "three, revised"; Some "two"; Some "three"; Some "four"; Some "five"]%string.
Proof.
  match goal with |- ?A /\ ?B /\ _ => assert A as H1 by reflexivity;
                                      assert B as H2 by (vm_compute; lia) end.
  split; [exact H1|]. split; [exact H2|].
  rewrite (@merge_single_overwrites_first_match Sample.clockwork
             (fst Scenario.replacedAll) _ _ _ Sample.changed3
             (snd Scenario.replacedAll) H1 H2 (Forall_nil _) eq_refl).
  reflexivity.
Defined.

(** An inject that matches nothing is appended at the end, stamped with the
    document's identifier, under its own identifier if it has a non-empty
    one and under a fresh UUID otherwise; the inject count goes up by one. *)
Theorem merge_single_appends_unmatched `{Platform} (cur : MelData) (u : Inject)
    (e : Env) :
  1 < length (injects cur) ->
  Forall (fun x => sameInject u x = false) (injects cur) ->
  let doc := fst (mergeMelUpdates (Some cur) [u] e) in
  let stamp := with_lastModified (Some (timestamp doc)) in
  let newId := if truthy (inj_id u) then inj_id u else Some (uuid_of (uuidsDrawn e)) in
  injects doc
  = map stamp (injects cur) ++ [stamp (with_melId (Some (melId cur)) (with_id newId u))]
  /\ totalInjects doc = S (length (injects cur)).
Proof.
  intros Hlen Hmiss doc stamp newId. unfold stamp, doc.
  rewrite (mergeMelUpdates_single cur u e Hlen), updateMelVersion_run. simpl.
  rewrite (mergeInject_miss cur _ u e Hmiss), map_app, length_app. simpl.
  split; [|lia].
  assert (Some (fst (orRandomUUID (inj_id u) e)) = newId) as ->; [|reflexivity].
  unfold newId. destruct (truthy (inj_id u)) eqn:Ht.
  - now apply orRandomUUID_truthy.
  - now rewrite orRandomUUID_falsy.
Qed.

Lemma merge_single_appends_unmatched_witness :
  1 < length (injects (fst Sample.built))
  /\ Forall (fun x => sameInject Scenario.extra6 x = false) (injects (fst Sample.built))
  /\ totalInjects (fst (@mergeMelUpdates Sample.clockwork (Some (fst Sample.built))
                          [Scenario.extra6] (snd Sample.built))) = 6.
Proof.
  assert (1 < length (injects (fst Sample.built))) as H1 by (vm_compute; lia).
  assert (Forall (fun x => sameInject Scenario.extra6 x = false)
                 (injects (fst Sample.built))) as H2
    by (vm_compute; repeat constructor).
  split; [exact H1|]. split; [exact H2|].
  exact (proj2 (@merge_single_appends_unmatched Sample.clockwork (fst Sample.built)
                  Scenario.extra6 (snd Sample.built) H1 H2)).
Defined.

(** Injects without identifier match each other: [undefined === undefined].
    When the first inject of the document has no identifier, an incoming
    inject without identifier overwrites it, whatever their numbers, and the
    entry is left without identifier. *)
Theorem merge_without_ids_hits_first `{Platform} (cur : MelData) (x u : Inject)
    (rest : list Inject) (e : Env) :
  injects cur = x :: rest ->
  rest <> [] ->
  inj_id x = None ->
  inj_id u = None ->
  let doc := fst (mergeMelUpdates (Some cur) [u] e) in
  let stamp := with_lastModified (Some (timestamp doc)) in
  injects doc = stamp (with_melId (Some (melId cur)) u) :: map stamp rest.
Proof.
  intros Hinj Hrest Hx Hu doc stamp. unfold stamp, doc.
  assert (1 < length (injects cur)) as Hlen
    by (rewrite Hinj; destruct rest; [contradiction | simpl; lia]).
  assert (sameInject u x = true) as Hhit by (unfold sameInject; now rewrite Hx, Hu).
  rewrite (mergeMelUpdates_single cur u e Hlen), Hinj.
  rewrite (mergeInject_hit cur [] rest x u e (Forall_nil _) Hhit).
  rewrite updateMelVersion_run. simpl. rewrite Hx.
  assert (with_id None u = u) as -> by (destruct u; simpl in *; now subst).
  reflexivity.
Qed.

Lemma merge_without_ids_hits_first_witness :
  map inj_id (injects (fst Scenario.replacedAll)) = repeat None 5
  /\ inj_id Sample.changed3 = None
  /\ map inj_Number
         (injects (fst (@mergeMelUpdates Sample.clockwork (Some (fst Scenario.replacedAll))
                          [Sample.changed3] (snd Scenario.replacedAll))))
     = map (fun z => Some (NumOfNumber z)) [3; 2; 3; 4; 5]%Z.
Proof.
  split; [reflexivity|]. split; [reflexivity|].
  rewrite (@merge_without_ids_hits_first Sample.clockwork (fst Scenario.replacedAll)
             _ Sample.changed3 _ (snd Scenario.replacedAll) eq_refl).
  - reflexivity.
  - discriminate.
  - reflexivity.
  - reflexivity.
Defined.

(* ================================================================== *)
(** ** More facts about [Map] *)

Section MapMore.
Context {K V : Type} (keq : K -> K -> bool).
Hypothesis keq_eq : forall a b, keq a b = true <-> a = b.

Lemma keq_refl (k : K) : keq k k = true.
Proof. now apply keq_eq. Qed.

Lemma keq_neq (a b : K) : a <> b -> keq a b = false.
Proof.
  intros Hne. destruct (keq a b) eqn:E; [|reflexivity].
  apply keq_eq in E. contradiction.
Qed.

Lemma Map_set_twice (m : JsMap K V) (k : K) (v v' : V) :
  Map_set keq (Map_set keq m k v) k v' = Map_set keq m k v'.
Proof.
  induction m as [|[k' w] m IH]; simpl.
  - now rewrite keq_refl.
  - destruct (keq k' k) eqn:E; simpl.
    + now rewrite keq_refl.
    + now rewrite E, IH.
Qed.

Lemma Map_set_keys_present (m : JsMap K V) (k : K) (v v' : V) :
  Map_get keq m k = Some v -> Map_keys (Map_set keq m k v') = Map_keys m.
Proof.
  unfold Map_keys. induction m as [|[k' w] m IH]; simpl; [discriminate|].
  destruct (keq k' k) eqn:E; simpl.
  - apply keq_eq in E. now subst.
  - intros Hget. now rewrite IH.
Qed.

Lemma Map_set_keys_absent (m : JsMap K V) (k : K) (v : V) :
  Map_get keq m k = None -> Map_keys (Map_set keq m k v) = Map_keys m ++ [k].
Proof.
  intros Hget. rewrite (Map_set_fresh keq m k v Hget).
  unfold Map_keys. now rewrite map_app.
Qed.

Lemma Map_set_uniqueKeys (m : JsMap K V) (k : K) (v : V) :
  uniqueKeys m -> uniqueKeys (Map_set keq m k v).
Proof.
  unfold uniqueKeys. intros Hnd.
  destruct (Map_get keq m k) as [w|] eqn:Hget.
  - now rewrite (Map_set_keys_present m k w v Hget).
  - rewrite (Map_set_keys_absent m k v Hget).
    apply NoDup_app; [exact Hnd | repeat constructor; intros [] |].
    intros x Hx [Heq|[]]. subst x. now apply (Map_get_None keq keq_eq m k) in Hget.
Qed.

Lemma Map_delete_keys_incl (m : JsMap K V) (k x : K) :
  In x (Map_keys (Map_delete keq m k)) -> In x (Map_keys m).
Proof.
  induction m as [|[k' w] m IH]; simpl; [tauto|].
  destruct (keq k' k); simpl; [tauto|]. intros [?|?]; [now left | right; auto].
Qed.

Lemma Map_delete_uniqueKeys (m : JsMap K V) (k : K) :
  uniqueKeys m -> uniqueKeys (Map_delete keq m k).
Proof.
  unfold uniqueKeys. induction m as [|[k' w] m IH]; simpl; intros Hnd; [constructor|].
  inversion Hnd as [|? ? Hnotin Hnd']; subst.
  destruct (keq k' k); simpl; [exact Hnd'|].
  constructor; [|now apply IH].
  intros Hin. apply Hnotin. now apply Map_delete_keys_incl in Hin.
Qed.

Lemma Map_delete_get_same (m : JsMap K V) (k : K) :
  uniqueKeys m -> Map_get keq (Map_delete keq m k) k = None.
Proof.
  unfold uniqueKeys. induction m as [|[k' w] m IH]; simpl; intros Hnd; [reflexivity|].
  inversion Hnd as [|? ? Hnotin Hnd']; subst.
  destruct (keq k' k) eqn:E; simpl.
  - apply keq_eq in E. subst k'. now apply (Map_get_None keq keq_eq).
  - rewrite E. now apply IH.
Qed.

Lemma Map_delete_get_other (m : JsMap K V) (k k' : K) :
  k <> k' -> Map_get keq (Map_delete keq m k) k' = Map_get keq m k'.
Proof.
  intros Hne. induction m as [|[k0 w] m IH]; simpl; [reflexivity|].
  destruct (keq k0 k) eqn:E; simpl.
  - apply keq_eq in E. subst k0. now rewrite (keq_neq k k' Hne).
  - destruct (keq k0 k'); [reflexivity | exact IH].
Qed.

Lemma Map_delete_absent (m : JsMap K V) (k : K) :
  Map_get keq m k = None -> Map_delete keq m k = m.
Proof.
  induction m as [|[k' w] m IH]; simpl; [reflexivity|].
  destruct (keq k' k); [discriminate|]. intros Hget. now rewrite IH.
Qed.
End MapMore.

(* ================================================================== *)
(** ** Document edits over HTTP: the accepted edit and what it touches *)

Section PutMore.
Context `{Platform}.

(** What [PUT] stores when it accepts an edit. *)
Lemma PUT_accepted_run (req : Chat.PutRequest) (sid : string) (session : Session)
      (mel : MelData) (edited : list Inject) (w : World) (e : Env) :
  Chat.put_sessionId req = Some sid -> sid <> ""%string ->
  Map_get String.eqb (chatSessions w) sid = Some session ->
  Chat.put_action req = Some "updateInjects"%string ->
  Chat.put_injects req = Some edited ->
  currentMel session = Some mel ->
  Chat.put_melId req = Some (melId mel) ->
  let doc := fst (updateMelVersion mel edited e) in
  let e1 := snd (updateMelVersion mel edited e) in
  Chat.PUT (Some req) w e
  = (mkResponse 200
       (EditOk doc ("MEL updated to version " ++ string_of_Z (version doc))%string),
     setChat w
       (Map_set String.eqb (chatSessions w) sid
          (mkSession (messages session) (lastActivity session) (createdAt session)
             (Some doc)
             (pushHistory (melHistory session)
                (mkHistory doc (iso_of (clockReads e1)) "user_edit")))),
     mkEnv (uuidsDrawn e1) (S (clockReads e1))).
Proof.
  intros Hsid Hne Hget Hact Hinj Hcur Hmel doc e1.
  assert (str_opt_eqb (Some (melId mel)) (Chat.put_melId req) = true) as Heq
    by (apply str_opt_eqb_eq; congruence).
  unfold Chat.PUT. apply String.eqb_neq in Hne.
  rewrite Hsid, Hne, Hget, Hact, Hinj, String.eqb_refl, Hcur, Heq.
  cbn [negb]. rewrite !bind_run. reflexivity.
Qed.

(** The store after any [PUT]: as before, or with one existing session
    rewritten, its history one entry longer. *)
Lemma PUT_world (request : option Chat.PutRequest) (w : World) (e : Env) :
  let w' := snd (fst (Chat.PUT request w e)) in
  w' = w
  \/ exists sid session session',
       Map_get String.eqb (chatSessions w) sid = Some session
       /\ w' = setChat w (Map_set String.eqb (chatSessions w) sid session')
       /\ messages session' = messages session
       /\ lastActivity session' = lastActivity session
       /\ createdAt session' = createdAt session
       /\ exists entry, historyOf session' = historyOf session ++ [entry]
                        /\ h_source entry = "user_edit"%string
                        /\ currentMel session' = Some (h_mel entry).
Proof.
  unfold Chat.PUT.
  destruct request as [req|]; [|now left].
  destruct (Chat.put_sessionId req) as [sid|]; [|now left].
  destruct (sid =? "")%string; [now left|].
  destruct (Map_get String.eqb (chatSessions w) sid) as [session|] eqn:Hget; [|now left].
  destruct (Chat.put_action req) as [action|]; [|now left].
  destruct (Chat.put_injects req) as [inj|]; [|now left].
  destruct (action =? "updateInjects")%string; [|now left].
  destruct (currentMel session) as [mel|]; [|now left].
  destruct (negb (str_opt_eqb (Some (melId mel)) (Chat.put_melId req))); [now left|].
  right. rewrite !bind_run. simpl.
  eexists sid, session, _. split; [exact Hget|]. split; [reflexivity|].
  simpl. repeat split. eexists. unfold historyOf. simpl. repeat split.
Qed.
End PutMore.

(** An edit request that names the session's current document is accepted:
    the answer is 200 with the new document and a message that names its
    version (the old version plus one, when that was a safe integer); the
    session's current document is the replacement of the old one by the
    edited list, its history is one [user_edit] entry longer with that
    document, and its messages, creation time and last-activity time are not
    touched. *)
Theorem PUT_accepts_matching_edit `{Platform} (req : Chat.PutRequest) (sid : string)
    (session : Session) (mel : MelData) (edited : list Inject) (w : World) (e : Env) :
  Chat.put_sessionId req = Some sid ->
  sid <> ""%string ->
  Map_get String.eqb (chatSessions w) sid = Some session ->
  Chat.put_action req = Some "updateInjects"%string ->
  Chat.put_injects req = Some edited ->
  currentMel session = Some mel ->
  Chat.put_melId req = Some (melId mel) ->
  let r := Chat.PUT (Some req) w e in
  let doc := fst (updateMelVersion mel edited e) in
  (exists message,
      fst (fst r) = mkResponse 200 (EditOk doc message)
      /\ (isSafeInteger (version mel) = true ->
          version doc = (version mel + 1)%Z
          /\ message
             = ("MEL updated to version " ++ string_of_Z (version mel + 1))%string))
  /\ exists session',
       Map_get String.eqb (chatSessions (snd (fst r))) sid = Some session'
       /\ currentMel session' = Some doc
       /\ (exists created,
              historyOf session' = historyOf session ++ [mkHistory doc created "user_edit"])
       /\ messages session' = messages session
       /\ lastActivity session' = lastActivity session
       /\ createdAt session' = createdAt session.
Proof.
  intros Hsid Hne Hget Hact Hinj Hcur Hmel r doc. unfold r.
  rewrite (PUT_accepted_run req sid session mel edited w e
             Hsid Hne Hget Hact Hinj Hcur Hmel).
  cbn [fst snd]. split.
  - eexists. split; [reflexivity|]. intros Hsafe.
    assert (version (fst (updateMelVersion mel edited e)) = (version mel + 1)%Z) as Hv
      by (rewrite updateMelVersion_run; cbn [version]; now apply jsAdd_safe).
    fold doc in Hv |- *. split; [exact Hv | now rewrite Hv].
  - eexists. split; [apply (Map_get_set_same String.eqb String.eqb_eq)|].
    simpl. repeat split. eexists. reflexivity.
Qed.

Lemma PUT_accepts_matching_edit_witness :
  Map_get String.eqb (chatSessions Sample.world1) "session_1" = Some Sample.session1
  /\ Chat.put_melId Scenario.goodEdit = Some (melId (fst Sample.built))
  /\ status (fst (fst (@Chat.PUT Sample.clockwork (Some Scenario.goodEdit)
                          Sample.world1 (snd Sample.built)))) = 200.
Proof.
  assert (Map_get String.eqb (chatSessions Sample.world1) "session_1"
          = Some Sample.session1) as H1 by reflexivity.
  assert (Chat.put_melId Scenario.goodEdit = Some (melId (fst Sample.built))) as H2
    by reflexivity.
  assert ("session_1"%string <> ""%string) as H3 by discriminate.
  split; [exact H1|]. split; [exact H2|].
  destruct (proj1 (@PUT_accepts_matching_edit Sample.clockwork Scenario.goodEdit
                     "session_1" Sample.session1 (fst Sample.built) [Sample.changed3]
                     Sample.world1 (snd Sample.built)
                     eq_refl H3 H1 eq_refl eq_refl eq_refl H2)) as (message & Hr & _).
  exact (f_equal status Hr).
Defined.

(** [PUT] never adds or removes a session and never touches a session
    other than the one the request names. *)
Theorem PUT_touches_one_session `{Platform} (request : option Chat.PutRequest)
    (w : World) (e : Env) :
  let w' := snd (fst (Chat.PUT request w e)) in
  Map_keys (chatSessions w') = Map_keys (chatSessions w)
  /\ forall sid,
       (forall req, request = Some req -> Chat.put_sessionId req <> Some sid) ->
       Map_get String.eqb (chatSessions w') sid = Map_get String.eqb (chatSessions w) sid.
Proof.
  intros w'. assert (w' = snd (fst (Chat.PUT request w e))) as Hw' by reflexivity.
  clearbody w'. revert Hw'. unfold Chat.PUT.
  destruct request as [req|]; [|intros ->; now split].
  destruct (Chat.put_sessionId req) as [sid0|] eqn:Hsid; [|intros ->; now split].
  destruct (sid0 =? "")%string; [intros ->; now split|].
  destruct (Map_get String.eqb (chatSessions w) sid0) as [session|] eqn:Hget;
    [|intros ->; now split].
  destruct (Chat.put_action req) as [action|]; [|intros ->; now split].
  destruct (Chat.put_injects req) as [inj|]; [|intros ->; now split].
  destruct (action =? "updateInjects")%string; [|intros ->; now split].
  destruct (currentMel session) as [mel|]; [|intros ->; now split].
  destruct (negb (str_opt_eqb (Some (melId mel)) (Chat.put_melId req)));
    [intros ->; now split|].
  rewrite !bind_run. simpl. intros ->. simpl. split.
  - exact (Map_set_keys_present String.eqb String.eqb_eq _ _ _ _ Hget).
  - intros sid Hother. apply (Map_get_set_other String.eqb String.eqb_eq).
    intros ->. now apply (Hother req eq_refl).
Qed.

Lemma PUT_rejected_unchanged_witness :
  status (fst (fst (@Chat.PUT Sample.clockwork (Some Scenario.noEdit)
                      Sample.world1 Sample.env0))) <> 200
  /\ @Chat.PUT Sample.clockwork (Some Scenario.noEdit) Sample.world1 Sample.env0
     = (mkResponse 400 (ErrorBody "Invalid action or missing data"),
        Sample.world1, Sample.env0).
Proof.
  assert (status (fst (fst (@Chat.PUT Sample.clockwork (Some Scenario.noEdit)
                              Sample.world1 Sample.env0))) <> 200) as H1
    by (vm_compute; discriminate).
  split; [exact H1|].
  exact (@PUT_rejected_unchanged Sample.clockwork (Some Scenario.noEdit)
           Sample.world1 Sample.env0 H1).
Defined.

Lemma PUT_touches_one_session_witness :
  Map_keys (chatSessions (snd (fst (@Chat.PUT Sample.clockwork (Some Scenario.goodEdit)
                                      Scenario.world2 (snd Sample.built)))))
  = ["session_1"]%string
  /\ Map_get String.eqb
       (chatSessions (snd (fst (@Chat.PUT Sample.clockwork (Some Scenario.goodEdit)
                                  Scenario.world2 (snd Sample.built))))) "s9"
     = None.
Proof.
  destruct (@PUT_touches_one_session Sample.clockwork (Some Scenario.goodEdit)
              Scenario.world2 (snd Sample.built)) as (Hkeys & Hother).
  split; [exact Hkeys|].
  apply (Hother "s9"%string). intros req [= <-]. discriminate.
Defined.

(* ================================================================== *)
(** ** Chat turns: [POST] *)

Lemma keyPresent_check (req : Chat.PostRequest) (envKey : option string) :
  keyPresent req envKey -> falsy (Chat.post_apiKey req) && falsy envKey = false.
Proof.
  unfold keyPresent, falsy. intros [->| ->]; simpl; [reflexivity|].
  apply andb_false_r.
Qed.

Lemma bind_step {A B} (m : M A) (k : A -> M B) (e : Env) (a : A) (e' : Env) :
  m e = (a, e') -> bind m k e = k a e'.
Proof. unfold bind. now intros ->. Qed.

Section PostMore.
Context `{Platform}.

(** A turn with a key, stage by stage: the session identifier, the session
    found or made, the snapshot taken, then the outcome of the model call. *)
Lemma POST_run (req : Chat.PostRequest) (envKey : option string)
      (upstream : Chat.Upstream) (w : World) (e : Env) :
  keyPresent req envKey ->
  let sid := fst (sessionIdFor req e) in
  let old := Map_get String.eqb (chatSessions w) sid in
  let session1 := withSnapshot req (fst (sessionOrNew old (snd (sessionIdFor req e)))) in
  let e1 := snd (sessionOrNew old (snd (sessionIdFor req e))) in
  let w1 := setChat w (Map_set String.eqb (chatSessions w) sid session1) in
  Chat.POST (Some req) envKey upstream w e =
  match upstream with
  | Chat.UpstreamThrows => (mkResponse 500 (ErrorBody "Internal server error"), w1, e1)
  | Chat.UpstreamNotOk httpStatus errorData =>
      (mkResponse httpStatus
         (ErrorBody ("OpenAI Responses API Error: "
                       ++ string_of_nat httpStatus ++ " - " ++ errorData)%string),
       w1, e1)
  | Chat.UpstreamOk out =>
      let r :=
        match Chat.proc_extractedJson out with
        | Chat.InjectArray extractedJson =>
            let a := applyInjects (existingMelOf req old) extractedJson
                                  (Chat.proc_action out) e1 in
            (Some (fst a),
             mkSession (messages session1) (lastActivity session1) (createdAt session1)
               (Some (fst a))
               (pushHistory (melHistory session1)
                  (mkHistory (fst a) (iso_of (clockReads (snd a)))
                             (sourceOf (Chat.proc_action out)))),
             mkEnv (uuidsDrawn (snd a)) (S (clockReads (snd a))))
        | _ => (None, session1, e1)
        end in
      let updatedMessages :=
        Chat.post_messages req ++ [mkMessage "assistant" (finalContentOf out) None] in
      (mkResponse 200
         (ChatReply (finalContentOf out) sid (length updatedMessages) (fst (fst r))
            (Chat.hasJsonOf (Chat.proc_extractedJson out))
            (Chat.proc_action out)),
       setChat w
         (Map_set String.eqb (chatSessions w) sid
            (mkSession updatedMessages (iso_of (clockReads (snd r)))
               (createdAt (snd (fst r))) (currentMel (snd (fst r)))
               (melHistory (snd (fst r))))),
       mkEnv (uuidsDrawn (snd r)) (S (clockReads (snd r))))
  end.
Proof.
  intros Hkey sid old session1 e1 w1.
  unfold Chat.POST.
  rewrite (keyPresent_check _ _ Hkey).
  assert ((if truthy (Chat.post_sessionId req)
           then ret (match Chat.post_sessionId req with Some s => s | None => "" end)
           else ms <- dateNow ;; ret ("session_" ++ ms))%string e
          = sessionIdFor req e) as Hid.
  { unfold sessionIdFor. destruct (Chat.post_sessionId req) as [s|]; simpl;
      [destruct (s =? "")%string|]; reflexivity. }
  destruct (sessionIdFor req e) as [sid0 es] eqn:Hsi.
  rewrite (bind_step _ _ e sid0 es Hid).
  simpl in sid, old, session1, e1, w1.
  assert ((match Map_get String.eqb (chatSessions w) sid0 with
           | Some s => ret s
           | None => la <- newDateISO ;; ca <- newDateISO ;;
                     ret (mkSession [] la ca None None)
           end) es = sessionOrNew old es) as Hs0.
  { unfold old, sid. destruct (Map_get String.eqb (chatSessions w) sid0); reflexivity. }
  destruct (sessionOrNew old es) as [session0 e0] eqn:Hs.
  rewrite (bind_step _ _ es session0 e0 Hs0).
  assert (existingMelOf req old
          = match Chat.post_currentMelData req with
            | Some mel => Some mel
            | None => currentMel (withSnapshot req session0)
            end) as Hex.
  { unfold existingMelOf, withSnapshot.
    destruct (Chat.post_currentMelData req); [reflexivity|].
    unfold old, sid in *. unfold sessionOrNew in Hs.
    destruct (Map_get String.eqb (chatSessions w) sid0); now inversion Hs. }
  simpl in session1, e1. fold (withSnapshot req session0).
  destruct upstream as [| st err | out]; try reflexivity.
  fold (withSnapshot req session0) in *. rewrite <- Hex.
  destruct (Chat.proc_extractedJson out) as [| | extractedJson].
  - unfold bind, ret, newDateISO, setChat. simpl.
    now rewrite (Map_set_twice String.eqb String.eqb_eq).
  - unfold bind, ret, newDateISO, setChat. simpl.
    now rewrite (Map_set_twice String.eqb String.eqb_eq).
  - unfold bind at 1 2. 
    destruct (applyInjects (existingMelOf req old) extractedJson
                (Chat.proc_action out) e0) as [mel ea] eqn:Ha.
    unfold bind, ret, newDateISO, setChat, sourceOf. simpl.
    rewrite (Map_set_twice String.eqb String.eqb_eq).
    unfold e1, session1, finalContentOf. rewrite Ha. reflexivity.
Qed.
End PostMore.

Section PostFacts.
Context `{Platform}.


Lemma keyPresent_of_check (req : Chat.PostRequest) (envKey : option string) :
  falsy (Chat.post_apiKey req) && falsy envKey = false -> keyPresent req envKey.
Proof.
  unfold keyPresent, falsy. intros Hc. apply andb_false_iff in Hc.
  destruct Hc as [Hc|Hc]; apply negb_false_iff in Hc; auto.
Qed.

Lemma withSnapshot_keeps (req : Chat.PostRequest) (s : Session) :
  messages (withSnapshot req s) = messages s
  /\ melHistory (withSnapshot req s) = melHistory s
  /\ createdAt (withSnapshot req s) = createdAt s
  /\ lastActivity (withSnapshot req s) = lastActivity s.
Proof. unfold withSnapshot. destruct (Chat.post_currentMelData req); now repeat split. Qed.



(** The store after any chat turn: as before, or with the turn's session
    written, whose history extends and whose creation time is that of the
    session found. *)
Lemma POST_world (request : option Chat.PostRequest) (envKey : option string)
      (upstream : Chat.Upstream) (w : World) (e : Env) :
  let w' := snd (fst (Chat.POST request envKey upstream w e)) in
  w' = w
  \/ exists sid s,
       w' = setChat w (Map_set String.eqb (chatSessions w) sid s)
       /\ forall old, Map_get String.eqb (chatSessions w) sid = Some old ->
                      prefixOf (historyOf old) (historyOf s)
                      /\ createdAt s = createdAt old.
Proof.
  intros w'. subst w'.
  destruct request as [req|]; [|now left].
  destruct (falsy (Chat.post_apiKey req) && falsy envKey) eqn:Hc.
  - left. unfold Chat.POST. now rewrite Hc.
  - right. apply keyPresent_of_check in Hc.
    rewrite (POST_run req envKey upstream w e Hc).
    set (sid := fst (sessionIdFor req e)).
    set (es := snd (sessionIdFor req e)).
    exists sid.
    assert (forall old, Map_get String.eqb (chatSessions w) sid = Some old ->
              historyOf (withSnapshot req
                           (fst (sessionOrNew (Map_get String.eqb (chatSessions w) sid) es)))
              = historyOf old
              /\ createdAt (withSnapshot req
                           (fst (sessionOrNew (Map_get String.eqb (chatSessions w) sid) es)))
                 = createdAt old) as Hold.
    { intros old ->. destruct (withSnapshot_keeps req old) as (_ & Hh & Hc' & _).
      simpl. unfold historyOf. now rewrite Hh, Hc'. }
    destruct upstream as [| st err | out]; cbn zeta iota beta.
    + eexists. split; [reflexivity|]. intros old Hget.
      destruct (Hold old Hget) as (-> & ->). split; [now exists [] ; rewrite app_nil_r | reflexivity].
    + eexists. split; [reflexivity|]. intros old Hget.
      destruct (Hold old Hget) as (-> & ->). split; [now exists [] ; rewrite app_nil_r | reflexivity].
    + destruct (Chat.proc_extractedJson out) as [| truthy | l]; cbn [fst snd];
        (eexists; split; [reflexivity|]); intros old Hget;
        destruct (Hold old Hget) as (Hh & Hca); cbn [createdAt]; rewrite Hca;
        (split; [|reflexivity]).
      * exists []. rewrite app_nil_r. unfold historyOf in *. cbn [melHistory]. exact Hh.
      * exists []. rewrite app_nil_r. unfold historyOf in *. cbn [melHistory]. exact Hh.
      * eexists. unfold historyOf in *. cbn [melHistory]. unfold pushHistory.
        rewrite Hh. reflexivity.
Qed.
End PostFacts.

(** Without a key in the request and in the environment, a chat turn is
    refused with 400 before anything happens: no session is created, the
    store and the clock are untouched, whatever the model would answer. *)
Theorem POST_without_key `{Platform} (req : Chat.PostRequest) (envKey : option string)
    (upstream : Chat.Upstream) (w : World) (e : Env) :
  truthy (Chat.post_apiKey req) = false ->
  truthy envKey = false ->
  Chat.POST (Some req) envKey upstream w e
  = (mkResponse 400 (ErrorBody "API key is required"), w, e).
Proof.
  intros Hk He. unfold Chat.POST, falsy. now rewrite Hk, He.
Qed.

Lemma POST_without_key_witness :
  truthy (Chat.post_apiKey Scenario.keylessTurn) = false
  /\ truthy (@None string) = false
  /\ @Chat.POST Sample.clockwork (Some Scenario.keylessTurn) None
                (Chat.UpstreamOk Scenario.reply3) Sample.world1 Sample.env0
     = (mkResponse 400 (ErrorBody "API key is required"), Sample.world1, Sample.env0).
Proof.
  split; [reflexivity|]. split; [reflexivity|].
  exact (@POST_without_key Sample.clockwork Scenario.keylessTurn None
           (Chat.UpstreamOk Scenario.reply3) Sample.world1 Sample.env0 eq_refl eq_refl).
Defined.



Example POST_failed_call_leaves_session_behind :
  Map_keys (chatSessions (snd (fst (@Chat.POST Sample.clockwork (Some Scenario.probe)
                         None (Chat.UpstreamNotOk 429 "rate limited")
                         Sample.emptyWorld Sample.env0)))) = ["s9"]%string.
Proof. reflexivity. Qed.



Example POST_hasJson_is_truthiness :
  body (fst (fst (@Chat.POST Sample.clockwork (Some Scenario.nextTurn) None
                    (Chat.UpstreamOk Scenario.zeroReply) Sample.world1
                    (snd Sample.built))))
  = ChatReply "Done." "session_1" 4 None false "merge"
  /\ body (fst (fst (@Chat.POST Sample.clockwork (Some Scenario.nextTurn) None
                       (Chat.UpstreamOk Scenario.objectReply) Sample.world1
                       (snd Sample.built))))
     = ChatReply "Done." "session_1" 4 None true "merge"
  /\ body (fst (fst (@Chat.POST Sample.clockwork (Some Scenario.nextTurn) None
                       (Chat.UpstreamOk Scenario.chatter) Sample.world1
                       (snd Sample.built))))
     = ChatReply "Which inject do you mean?" "session_1" 4 None false "merge".
Proof. repeat split. Qed.





(* ================================================================== *)
(** ** The version history is append-only *)

(** Neither a chat turn nor a document edit ever removes a session, shortens
    or rewrites its version history, or changes its creation time: after
    either, a session that was there is still there, and its previous
    history is an initial segment of its history. *)
Theorem chat_history_append_only `{Platform} (w : World) (sid : string) (old : Session) :
  Map_get String.eqb (chatSessions w) sid = Some old ->
  (forall request envKey upstream e,
      exists new,
        Map_get String.eqb
          (chatSessions (snd (fst (Chat.POST request envKey upstream w e)))) sid
        = Some new
        /\ prefixOf (historyOf old) (historyOf new)
        /\ createdAt new = createdAt old)
  /\ (forall request e,
         exists new,
           Map_get String.eqb (chatSessions (snd (fst (Chat.PUT request w e)))) sid
           = Some new
           /\ prefixOf (historyOf old) (historyOf new)
           /\ createdAt new = createdAt old).
Proof.
  intros Hget.
  assert (prefixOf (historyOf old) (historyOf old)) as Hrefl
    by (exists []; now rewrite app_nil_r).
  split.
  - intros request envKey upstream e.
    destruct (POST_world request envKey upstream w e) as [->|(sid0 & s & -> & Hs)].
    + now exists old.
    + cbn [setChat chatSessions].
      destruct (string_dec sid0 sid) as [->|Hne].
      * exists s. split; [apply (Map_get_set_same String.eqb String.eqb_eq)|].
        now apply Hs.
      * exists old.
        rewrite (Map_get_set_other String.eqb String.eqb_eq _ _ _ _ Hne).
        now repeat split.
  - intros request e.
    destruct (PUT_world request w e)
      as [->|(sid0 & session & s & Hget0 & -> & _ & _ & Hca & entry & Hh & _)].
    + now exists old.
    + cbn [setChat chatSessions].
      destruct (string_dec sid0 sid) as [->|Hne].
      * exists s. split; [apply (Map_get_set_same String.eqb String.eqb_eq)|].
        rewrite Hget in Hget0. injection Hget0 as <-.
        split; [now exists [entry] | exact Hca].
      * exists old.
        rewrite (Map_get_set_other String.eqb String.eqb_eq _ _ _ _ Hne).
        now repeat split.
Qed.

Lemma chat_history_append_only_witness :
  Map_get String.eqb (chatSessions Sample.world1) "session_1" = Some Sample.session1
  /\ exists new,
       Map_get String.eqb
         (chatSessions (snd (fst (@Chat.PUT Sample.clockwork (Some Scenario.goodEdit)
                                    Sample.world1 (snd Sample.built)))))
         "session_1" = Some new
       /\ prefixOf (historyOf Sample.session1) (historyOf new).
Proof.
  assert (Map_get String.eqb (chatSessions Sample.world1) "session_1"
          = Some Sample.session1) as H1 by reflexivity.
  split; [exact H1|].
  destruct (proj2 (@chat_history_append_only Sample.clockwork Sample.world1 "session_1"
                     Sample.session1 H1) (Some Scenario.goodEdit) (snd Sample.built))
    as (new & Hget & Hpre & _).
  exists new. split; [exact Hget | exact Hpre].
Defined.

(* ================================================================== *)
(** ** The stores stay maps *)

(** Every handler that writes keeps the keys of both stores unique, so the
    lists always stand for JavaScript maps. *)
Theorem handlers_keep_keys_unique `{Platform} (w : World) :
  wellFormed w ->
  (forall request envKey upstream e,
      wellFormed (snd (fst (Chat.POST request envKey upstream w e))))
  /\ (forall request e, wellFormed (snd (fst (Chat.PUT request w e))))
  /\ (forall request e, wellFormed (snd (fst (Sessions.POST request w e))))
  /\ (forall sessionId, wellFormed (snd (Sessions.DELETE sessionId w))).
Proof.
  intros [Hc Hs]. split; [|split; [|split]].
  - intros request envKey upstream e.
    destruct (POST_world request envKey upstream w e) as [->|(sid0 & s & -> & _)].
    + now split.
    + split; [|exact Hs]. now apply (Map_set_uniqueKeys String.eqb String.eqb_eq).
  - intros request e.
    destruct (PUT_world request w e) as [->|(sid0 & session & s & _ & -> & _)].
    + now split.
    + split; [|exact Hs]. now apply (Map_set_uniqueKeys String.eqb String.eqb_eq).
  - intros request e. unfold Sessions.POST.
    destruct request as [req|]; [|now split].
    destruct (truthy (Sessions.post_sessionId req)); [|now split].
    destruct (Sessions.post_sessionId req) as [sid|]; [|now split].
    rewrite !bind_run. cbn [fst snd ret]. split; [exact Hc|].
    now apply (Map_set_uniqueKeys String.eqb String.eqb_eq).
  - intros sessionId. unfold Sessions.DELETE.
    destruct (truthy sessionId); [|now split].
    destruct sessionId as [sid|]; [|now split].
    split; [exact Hc|]. now apply (Map_delete_uniqueKeys String.eqb).
Qed.

Lemma handlers_keep_keys_unique_witness :
  wellFormed Scenario.world2
  /\ wellFormed (snd (Sessions.DELETE (Some "session_1"%string) Scenario.world2)).
Proof.
  assert (wellFormed Scenario.world2) as H1.
  { split; repeat constructor; intros []. }
  split; [exact H1|].
  exact (proj2 (proj2 (proj2 (@handlers_keep_keys_unique Sample.clockwork
                                Scenario.world2 H1))) (Some "session_1"%string)).
Defined.

(* ================================================================== *)
(** ** The sessions endpoint *)

Section SavedFacts.
Context `{Platform}.

Lemma Sessions_POST_run (req : Sessions.PostRequest) (sid : string) (w : World) (e : Env) :
  Sessions.post_sessionId req = Some sid -> sid <> ""%string ->
  let ca := match Map_get String.eqb (savedSessions w) sid with
            | Some d => orElseNow (sd_createdAt d)
            | None => newDateISO
            end (mkEnv (uuidsDrawn e) (S (clockReads e))) in
  let session := mkSessionData sid (Sessions.post_exercise req)
                   (Sessions.post_messages req) (iso_of (clockReads e)) (fst ca) in
  Sessions.POST (Some req) w e
  = (mkResponse 200 (SaveOk session),
     setSaved w (Map_set String.eqb (savedSessions w) sid session),
     snd ca).
Proof.
  intros Hsid Hne ca session. unfold Sessions.POST. rewrite Hsid. cbn [truthy].
  rewrite (proj2 (String.eqb_neq _ _) Hne). cbn [negb].
  unfold bind at 1. unfold newDateISO at 1. unfold bind.
  fold ca. destruct ca as [c e']. reflexivity.
Qed.

Lemma Sessions_GET_one (sid : string) (w : World) (e : Env) :
  sid <> ""%string ->
  Sessions.GET (Some sid) w e
  = (match Map_get String.eqb (savedSessions w) sid with
     | Some session => mkResponse 200 (SavedBody session)
     | None => mkResponse 404 (ErrorBody "Session not found")
     end, e).
Proof.
  intros Hne. unfold Sessions.GET. cbn [truthy].
  rewrite (proj2 (String.eqb_neq _ _) Hne). cbn [negb].
  now destruct (Map_get String.eqb (savedSessions w) sid).
Qed.

Lemma Map_get_of_In {V} (m : JsMap string V) (k : string) (v : V) :
  uniqueKeys m -> In (k, v) m -> Map_get String.eqb m k = Some v.
Proof.
  unfold uniqueKeys. induction m as [|[k' v'] m IH]; simpl; intros Hnd Hin; [contradiction|].
  inversion Hnd as [|? ? Hnotin Hnd']; subst.
  destruct Hin as [[= -> ->]|Hin].
  - now rewrite String.eqb_refl.
  - destruct (String.eqb k' k) eqn:E; [|now apply IH].
    apply String.eqb_eq in E. subst k'. exfalso. apply Hnotin.
    change k with (fst (k, v)). now apply in_map.
Qed.
End SavedFacts.

(** Saving then fetching: a save with a session identifier answers 200 with
    the session it stored, made of the identifier, exercise and messages of
    the request; a fetch of that identifier right after returns the same
    session, and every other saved session is as it was. *)
Theorem Sessions_save_then_get `{Platform} (req : Sessions.PostRequest) (sid : string)
    (w : World) (e : Env) :
  Sessions.post_sessionId req = Some sid ->
  sid <> ""%string ->
  let r := Sessions.POST (Some req) w e in
  exists session,
    fst (fst r) = mkResponse 200 (SaveOk session)
    /\ sd_id session = sid
    /\ sd_exercise session = Sessions.post_exercise req
    /\ sd_messages session = Sessions.post_messages req
    /\ (forall e', Sessions.GET (Some sid) (snd (fst r)) e'
                   = (mkResponse 200 (SavedBody session), e'))
    /\ (forall other, other <> sid ->
          Map_get String.eqb (savedSessions (snd (fst r))) other
          = Map_get String.eqb (savedSessions w) other).
Proof.
  intros Hsid Hne r. unfold r. rewrite (Sessions_POST_run req sid w e Hsid Hne).
  cbn [fst snd]. eexists. split; [reflexivity|]. cbn [sd_id sd_exercise sd_messages].
  repeat split.
  - intros e'. rewrite (Sessions_GET_one sid _ e' Hne). cbn [setSaved savedSessions].
    now rewrite (Map_get_set_same String.eqb String.eqb_eq).
  - intros other Hother. cbn [setSaved savedSessions].
    apply (Map_get_set_other String.eqb String.eqb_eq). congruence.
Qed.

Lemma Sessions_save_then_get_witness :
  Sessions.post_sessionId Sample.saveRequest = Some "session_1"%string
  /\ exists session,
       fst (fst (@Sessions.POST Sample.clockwork (Some Sample.saveRequest)
                   Sample.world1 Sample.env0))
       = mkResponse 200 (SaveOk session)
       /\ sd_id session = "session_1"%string.
Proof.
  assert ("session_1"%string <> ""%string) as H3 by discriminate.
  split; [reflexivity|].
  destruct (@Sessions_save_then_get Sample.clockwork Sample.saveRequest "session_1"
              Sample.world1 Sample.env0 eq_refl H3) as (session & Hresp & Hid & _).
  exists session. split; [exact Hresp | exact Hid].
Defined.

(** Saving over a session keeps its creation time (when it has one) and
    moves its last-activity time to the time of the save; a session saved for
    the first time gets both from the clock. *)
Theorem Sessions_save_keeps_createdAt `{Platform} (req : Sessions.PostRequest)
    (sid : string) (w : World) (e : Env) :
  Sessions.post_sessionId req = Some sid ->
  sid <> ""%string ->
  exists session,
    Map_get String.eqb (savedSessions (snd (fst (Sessions.POST (Some req) w e)))) sid
    = Some session
    /\ sd_lastActivity session = iso_of (clockReads e)
    /\ sd_createdAt session
       = match Map_get String.eqb (savedSessions w) sid with
         | Some d => if (sd_createdAt d =? "")%string
                     then iso_of (S (clockReads e)) else sd_createdAt d
         | None => iso_of (S (clockReads e))
         end.
Proof.
  intros Hsid Hne. rewrite (Sessions_POST_run req sid w e Hsid Hne).
  cbn [fst snd setSaved savedSessions]. eexists.
  split; [apply (Map_get_set_same String.eqb String.eqb_eq)|].
  cbn [sd_lastActivity sd_createdAt]. split; [reflexivity|].
  destruct (Map_get String.eqb (savedSessions w) sid) as [d|]; [|reflexivity].
  unfold orElseNow. now destruct (sd_createdAt d =? "")%string.
Qed.

Lemma Sessions_save_keeps_createdAt_witness :
  Sessions.post_sessionId Sample.saveRequest = Some "session_1"%string
  /\ exists session,
       Map_get String.eqb
         (savedSessions (snd (fst (@Sessions.POST Sample.clockwork
                                     (Some Sample.saveRequest) Scenario.world2
                                     Sample.env0)))) "session_1" = Some session
       /\ sd_createdAt session = "2024-12-31T23:00:00Z"%string.
Proof.
  assert ("session_1"%string <> ""%string) as H3 by discriminate.
  split; [reflexivity|].
  destruct (@Sessions_save_keeps_createdAt Sample.clockwork Sample.saveRequest
              "session_1" Scenario.world2 Sample.env0 eq_refl H3)
    as (session & Hget & _ & Hca).
  exists session. split; [exact Hget | exact Hca].
Defined.

(** Deleting then fetching: a delete with a session identifier answers 200
    whether or not the session exists; afterwards a fetch of that identifier
    answers 404, every other saved session is as it was, and deleting what
    is not there changes nothing. *)
Theorem Sessions_delete_then_get `{Platform} (sid : string) (w : World) :
  uniqueKeys (savedSessions w) ->
  sid <> ""%string ->
  let r := Sessions.DELETE (Some sid) w in
  fst r = mkResponse 200 DeleteOk
  /\ (forall e, Sessions.GET (Some sid) (snd r) e
               = (mkResponse 404 (ErrorBody "Session not found"), e))
  /\ (forall other, other <> sid ->
        Map_get String.eqb (savedSessions (snd r)) other
        = Map_get String.eqb (savedSessions w) other)
  /\ (Map_get String.eqb (savedSessions w) sid = None -> snd r = w).
Proof.
  intros Huniq Hne r. unfold r, Sessions.DELETE. cbn [truthy].
  rewrite (proj2 (String.eqb_neq _ _) Hne). cbn [negb fst snd].
  split; [reflexivity|]. split; [|split].
  - intros e. rewrite (Sessions_GET_one sid _ e Hne). cbn [setSaved savedSessions].
    now rewrite (Map_delete_get_same String.eqb String.eqb_eq _ _ Huniq).
  - intros other Hother. cbn [setSaved savedSessions].
    apply (Map_delete_get_other String.eqb String.eqb_eq). congruence.
  - intros Hnone. unfold setSaved.
    rewrite (Map_delete_absent String.eqb _ _ Hnone). now destruct w.
Qed.

Lemma Sessions_delete_then_get_witness :
  uniqueKeys (savedSessions Scenario.world2)
  /\ fst (@Sessions.GET Sample.clockwork (Some "session_1"%string)
            (snd (Sessions.DELETE (Some "session_1"%string) Scenario.world2))
            Sample.env0)
     = mkResponse 404 (ErrorBody "Session not found").
Proof.
  assert (uniqueKeys (savedSessions Scenario.world2)) as H1
    by (repeat constructor; intros []).
  assert ("session_1"%string <> ""%string) as H3 by discriminate.
  split; [exact H1|].
  exact (f_equal fst
           (proj1 (proj2 (@Sessions_delete_then_get Sample.clockwork "session_1"
                            Scenario.world2 H1 H3)) Sample.env0)).
Defined.

(** The listing names every saved session once, in the insertion order of
    the store, each with the number of its messages (0 when it has none). *)
Theorem Sessions_list_entries `{Platform} (w : World) (e : Env) :
  uniqueKeys (savedSessions w) ->
  exists entries,
    fst (Sessions.GET None w e) = mkResponse 200 (SavedList entries)
    /\ map (fun en => (fst (fst en), snd en)) entries
       = map (fun kv => (fst kv, match sd_messages (snd kv) with
                                 | Some l => length l
                                 | None => 0
                                 end))
             (savedSessions w).
Proof.
  intros Huniq. unfold Sessions.GET. cbn [truthy]. rewrite bind_run. cbn [ret fst].
  eexists. split; [reflexivity|].
  rewrite (mapFrom_preserves _ (fun en => (fst (fst en), snd en))
             (fun id => (id, match Map_get String.eqb (savedSessions w) id with
                             | Some d => match sd_messages d with
                                         | Some l => length l
                                         | None => 0
                                         end
                             | None => 0
                             end))).
  - unfold Map_keys. rewrite map_map. apply map_ext_in. intros [k d] Hin.
    cbn [fst snd]. now rewrite (Map_get_of_In _ k d Huniq Hin).
  - intros id i e'. rewrite bind_run. reflexivity.
Qed.

Lemma Sessions_list_entries_witness :
  uniqueKeys (savedSessions Scenario.world2)
  /\ exists entries,
       fst (@Sessions.GET Sample.clockwork None Scenario.world2 Sample.env0)
       = mkResponse 200 (SavedList entries)
       /\ map (fun en => (fst (fst en), snd en)) entries = [("session_1"%string, 1)].
Proof.
  assert (uniqueKeys (savedSessions Scenario.world2)) as H1
    by (repeat constructor; intros []).
  split; [exact H1|].
  destruct (@Sessions_list_entries Sample.clockwork Scenario.world2 Sample.env0 H1)
    as (entries & Hresp & Hmap).
  exists entries. split; [exact Hresp | exact Hmap].
Defined.

(* ================================================================== *)
(** ** Reading the model's reply: [processResponsesApiOutput] *)

(** A structured inject array in the reply wins over whatever JSON the text
    holds, and only it can choose the action: with it, the action is the one
    it names (merge if it names none); without it, the action is always
    merge and the injects are what the text yields, if anything. *)
Theorem processResponsesApiOutput_priority
    (extractJsonFromContent : string -> Chat.Extracted)
    (responseData : ChatOutput.ResponseData) :
  let out := fst (ChatOutput.processResponsesApiOutput extractJsonFromContent
                    responseData) in
  match structuredOf responseData with
  | Some parsed =>
      Some (Chat.proc_extractedJson out)
        = option_map Chat.InjectArray (ChatOutput.parsed_updatedInjects parsed)
      /\ Chat.proc_action out
         = match ChatOutput.parsed_action parsed with
           | Some a => if (a =? "")%string then "merge"%string else a
           | None => "merge"%string
           end
  | None =>
      Chat.proc_action out = "merge"%string
      /\ Chat.proc_extractedJson out
         = (if (Chat.proc_content out =? "")%string then Chat.NoJson
            else extractJsonFromContent (Chat.proc_content out))
  end.
Proof.
  unfold structuredOf, ChatOutput.processResponsesApiOutput.
  destruct (ChatOutput.choices responseData) as [[|choice rest]|]; try (now split).
  destruct (ChatOutput.ch_message choice) as [m|]; try (now split).
  destruct (ChatOutput.cm_parsed m) as [parsed|]; try (now split).
  destruct (ChatOutput.parsed_updatedInjects parsed) as [l|] eqn:E; try (now split).
  cbn [fst Chat.proc_extractedJson Chat.proc_action]. rewrite E. split; [reflexivity|].
  destruct (ChatOutput.parsed_action parsed) as [a|]; cbn [truthy]; [|reflexivity].
  now destruct (a =? "")%string.
Qed.

Example processResponsesApiOutput_samples :
  fst (ChatOutput.processResponsesApiOutput (fun _ => Chat.NotAnArray true) Scenario.structured)
  = Chat.mkProcessed "Done." (Chat.InjectArray [Sample.changed3]) "replace"
  /\ fst (ChatOutput.processResponsesApiOutput (fun _ => Chat.InjectArray Sample.five)
                                               Scenario.freeText)
     = Chat.mkProcessed "Done." (Chat.InjectArray Sample.five) "merge".
Proof. split; reflexivity. Qed.

(* ================================================================== *)
(** ** Editing a row of the table *)

(** A row whose inject has no identifier is keyed by its position; saving an
    edit of such a row hands the injects on exactly as displayed, so the edit
    is not in what is sent (no inject bears the row key as identifier). *)
Theorem saveInjectEdit_without_id_is_lost (displayInjects : list Inject)
    (editedValues : JsMap string Inject) (x edited : Inject) (index : nat) :
  nth_error displayInjects index = Some x ->
  truthy (inj_id x) = false ->
  Map_get String.eqb editedValues (AppUI.rowKey x index) = Some edited ->
  Forall (fun y => inj_id y <> Some (AppUI.rowKey x index)) displayInjects ->
  AppUI.rowKey x index = ("inject-" ++ string_of_nat index)%string
  /\ AppUI.saveInjectEdit displayInjects editedValues (AppUI.rowKey x index)
     = Some displayInjects.
Proof.
  intros _ Hfalsy Hpending Hfresh. split.
  - unfold AppUI.rowKey. destruct (inj_id x) as [s|]; [|reflexivity].
    simpl in Hfalsy. now destruct (s =? "")%string.
  - unfold AppUI.saveInjectEdit. rewrite Hpending. f_equal.
    rewrite <- (map_id displayInjects) at 2. apply map_ext_in. intros y Hy.
    rewrite Forall_forall in Hfresh.
    now rewrite (proj2 (str_opt_eqb_neq _ _) (Hfresh y Hy)).
Qed.

Lemma saveInjectEdit_without_id_is_lost_witness :
  nth_error (injects (fst Scenario.replacedAll)) 2
    = Some (with_lastModified (Some "2025-01-01T00:00:01Z"%string)
              (Sample.raw 3 "Bravo" "three"))
  /\ AppUI.saveInjectEdit (injects (fst Scenario.replacedAll))
       [("inject-2"%string, Sample.changed3)] "inject-2"
     = Some (injects (fst Scenario.replacedAll)).
Proof.
  assert (nth_error (injects (fst Scenario.replacedAll)) 2
          = Some (with_lastModified (Some "2025-01-01T00:00:01Z"%string)
                    (Sample.raw 3 "Bravo" "three"))) as H1 by reflexivity.
  split; [exact H1|].
  refine (proj2 (saveInjectEdit_without_id_is_lost
                   (injects (fst Scenario.replacedAll))
                   [("inject-2"%string, Sample.changed3)] _ Sample.changed3 2
                   H1 eq_refl eq_refl _)).
  vm_compute. repeat constructor; discriminate.
Defined.

(** From the table to the store: saving a pending edit of a row of the
    displayed document, for a session whose current document is that one,
    sends a [PUT] the server accepts; the new current document has the same
    identifier, the version plus one (as a double: exactly plus one from a
    safe integer) and as many injects, and at every position
    holds the edited inject where the displayed one bore the row's
    identifier and the displayed inject elsewhere, re-stamped: the
    last-modified time of every inject is the reading of the clock at the
    request, which is the new document's timestamp. *)
Theorem table_edit_round_trip `{Platform} (w : World) (sid injectId : string)
    (session : Session) (mel : MelData) (editedValues : JsMap string Inject)
    (edited : Inject) (e : Env) :
  Map_get String.eqb (chatSessions w) sid = Some session ->
  currentMel session = Some mel ->
  sid <> ""%string ->
  Map_get String.eqb editedValues injectId = Some edited ->
  exists updated req s' doc,
    AppUI.saveInjectEdit (injects mel) editedValues injectId = Some updated
    /\ AppUI.handleMelUpdate (Some mel) sid updated = Some req
    /\ status (fst (fst (Chat.PUT (Some req) w e))) = 200
    /\ Map_get String.eqb (chatSessions (snd (fst (Chat.PUT (Some req) w e)))) sid
       = Some s'
    /\ currentMel s' = Some doc
    /\ melId doc = melId mel
    /\ version doc = jsAdd (version mel) 1
    /\ (isSafeInteger (version mel) = true -> version doc = (version mel + 1)%Z)
    /\ length (injects doc) = length (injects mel)
    /\ timestamp doc = iso_of (clockReads e)
    /\ Forall (fun d => inj_lastModified d = Some (iso_of (clockReads e))) (injects doc)
    /\ forall i x,
         nth_error (injects mel) i = Some x ->
         nth_error (injects doc) i
         = Some (with_lastModified (Some (timestamp doc))
                   (if str_opt_eqb (inj_id x) (Some injectId) then edited else x)).
Proof.
  intros Hget Hcur Hne Hpending.
  unfold AppUI.saveInjectEdit, AppUI.handleMelUpdate. rewrite Hpending.
  rewrite (proj2 (String.eqb_neq _ _) Hne).
  set (updated := map (fun inject => if str_opt_eqb (inj_id inject) (Some injectId)
                                     then edited else inject) (injects mel)).
  set (req := Chat.mkPut (Some sid) (Some (melId mel)) (Some updated)
                         (Some "updateInjects"%string)).
  exists updated, req.
  rewrite (PUT_accepted_run req sid session mel updated w e eq_refl Hne Hget eq_refl
             eq_refl Hcur eq_refl).
  cbn [fst snd status setChat chatSessions].
  eexists _, (fst (updateMelVersion mel updated e)).
  split; [reflexivity|]. split; [reflexivity|]. split; [reflexivity|].
  split; [apply (Map_get_set_same String.eqb String.eqb_eq)|].
  split; [reflexivity|].
  rewrite updateMelVersion_run. cbn [melId version injects timestamp].
  split; [reflexivity|]. split; [reflexivity|]. split; [apply jsAdd_safe|].
  split; [unfold updated; now rewrite !length_map|].
  split; [reflexivity|]. split.
  { apply Forall_forall. intros d Hd. apply in_map_iff in Hd.
    now destruct Hd as (x & <- & _). }
  intros i x Hx. unfold updated. rewrite !nth_error_map, Hx. reflexivity.
Qed.

Lemma table_edit_round_trip_witness :
  Map_get String.eqb (chatSessions Sample.world1) "session_1" = Some Sample.session1
  /\ currentMel Sample.session1 = Some (fst Sample.built)
  /\ exists updated req,
       AppUI.saveInjectEdit (injects (fst Sample.built))
         [("uuid-3"%string, Scenario.thirdEdited)] "uuid-3" = Some updated
       /\ AppUI.handleMelUpdate (Some (fst Sample.built)) "session_1" updated = Some req
       /\ status (fst (fst (@Chat.PUT Sample.clockwork (Some req) Sample.world1
                              (snd Sample.built)))) = 200.
Proof.
  assert (Map_get String.eqb (chatSessions Sample.world1) "session_1"
          = Some Sample.session1) as H1 by reflexivity.
  assert ("session_1"%string <> ""%string) as H3 by discriminate.
  split; [exact H1|]. split; [reflexivity|].
  destruct (@table_edit_round_trip Sample.clockwork Sample.world1 "session_1" "uuid-3"
              Sample.session1 (fst Sample.built)
              [("uuid-3"%string, Scenario.thirdEdited)] Scenario.thirdEdited
              (snd Sample.built) H1 eq_refl H3 eq_refl)
    as (updated & req & _ & _ & Hsave & Hreq & Hst & _).
  exists updated, req. repeat split; assumption.
Defined.

Example table_edit_changes_row_three :
  match Scenario.tableEdit with
  | Some updated =>
      map inj_Message updated
      = [Some "one"; Some "two"; Some "three, edited by hand"; Some "four";
         Some "five"]%string
  | None => False
  end.
Proof. reflexivity. Qed.
